(** * OIDC credential provider: a shallow embedding of
      [scripts/oidc_credential_provider.py] and its verified properties.

    Conventions of the embedding.
    - A Python [str] is a [string]; a [datetime] is an instant counted in
      microseconds (an integer), a [timedelta] a number of microseconds.
      The range limits of [datetime] and [timedelta] and fractional JSON
      numbers are not represented.
    - A decoded JSON value ([response.json()]) is a [json]; Python's [None]
      is [JNull].  Subscripting, [in], [.get] and truth tests on such values
      follow Python's rules for the type at hand.
    - Every effect (clock reading, HTTP POST, STS call, file operation,
      print, sleep) appends an [event] to the trace of the [World]; what the
      outside world answers is given by an [Env], whose answers may depend
      on everything that happened before.
    - The [logger] calls write to the error stream only and never raise;
      they are left out.
    - A raised exception is a value of [exn]; a computation returns
      [inl e] when it raises [e]. *)

From Stdlib Require Import ZArith Ascii String.
From stdpp Require Import base option list gmap strings pretty.

Set Warnings "-register-all".
Local Open Scope Z_scope.
Local Open Scope string_scope.

(** ** Python values *)

Definition datetime := Z.
Definition timedelta := Z.

Definition timedelta_seconds (n : Z) : timedelta := n * 1000000.
Definition timedelta_minutes (n : Z) : timedelta := timedelta_seconds (n * 60).

Inductive json :=
| JNull
| JBool (b : bool)
| JNum (n : Z)
| JStr (s : string)
| JArr (l : list json)
| JObj (kvs : list (string * json)).

Inductive exn :=
| RequestException (msg : string)   (* requests: connection error, timeout *)
| HTTPError (status : Z)            (* response.raise_for_status() *)
| JSONDecodeError                   (* response.json() *)
| RuntimeError (msg : string)
| ValueError (msg : string)
| KeyError (key : string)
| TypeError
| AttributeError
| OSError (msg : string)
| ClientError (msg : string)        (* botocore *)
| SystemExit (code : Z).

(** [except Exception] catches every class above but [SystemExit]. *)
Definition is_Exception (e : exn) : bool :=
  match e with
  | SystemExit _ => false
  | _ => true
  end.

(** *** Strings *)

Fixpoint str_contains (needle hay : string) : bool :=
  String.prefix needle hay ||
  match hay with
  | EmptyString => false
  | String _ hay' => str_contains needle hay'
  end.

(** [s.replace("Z", "+00:00")] *)
Fixpoint replace_Z (s : string) : string :=
  match s with
  | EmptyString => EmptyString
  | String c s' =>
      if Ascii.eqb c "Z"%char then "+00:00" +:+ replace_Z s'
      else String c (replace_Z s')
  end.

Definition lower_ascii (c : ascii) : ascii :=
  let n := nat_of_ascii c in
  if (65 <=? n)%nat && (n <=? 90)%nat then ascii_of_nat (n + 32) else c.

Fixpoint lower (s : string) : string :=
  match s with
  | EmptyString => EmptyString
  | String c s' => String (lower_ascii c) (lower s')
  end.

Fixpoint join (sep : string) (l : list string) : string :=
  match l with
  | [] => ""
  | [x] => x
  | x :: l' => x +:+ sep +:+ join sep l'
  end.

(** Index of the last occurrence of [c], as [s.rfind(c)]. *)
Fixpoint rfind (c : ascii) (s : string) : option nat :=
  match s with
  | EmptyString => None
  | String d s' =>
      match rfind c s' with
      | Some i => Some (S i)
      | None => if Ascii.eqb d c then Some 0%nat else None
      end
  end.

(** *** Truth value, membership, subscripting on decoded JSON *)

Definition truthy (j : json) : bool :=
  match j with
  | JNull => false
  | JBool b => b
  | JNum n => negb (n =? 0)%Z
  | JStr s => negb (String.eqb s "")
  | JArr l => match l with [] => false | _ => true end
  | JObj kvs => match kvs with [] => false | _ => true end
  end.

Fixpoint assoc (k : string) (kvs : list (string * json)) : option json :=
  match kvs with
  | [] => None
  | (k', v) :: kvs' => if String.eqb k k' then Some v else assoc k kvs'
  end.

Definition is_JStr (k : string) (j : json) : bool :=
  match j with
  | JStr s => String.eqb s k
  | _ => false
  end.

(** [k in j] *)
Definition py_in (k : string) (j : json) : exn + bool :=
  match j with
  | JObj kvs => inr (bool_decide (is_Some (assoc k kvs)))
  | JArr l => inr (existsb (is_JStr k) l)
  | JStr s => inr (str_contains k s)
  | _ => inl TypeError
  end.

(** [j[k]] *)
Definition py_getitem (j : json) (k : string) : exn + json :=
  match j with
  | JObj kvs =>
      match assoc k kvs with
      | Some v => inr v
      | None => inl (KeyError k)
      end
  | _ => inl TypeError
  end.

(** [j.get(k, d)] *)
Definition py_get (j : json) (k : string) (d : json) : exn + json :=
  match j with
  | JObj kvs => inr (default d (assoc k kvs))
  | _ => inl AttributeError
  end.

(** [timedelta(seconds=j)]: an integer (or a bool, which is an integer in
    Python) is accepted, anything else raises [TypeError]. *)
Definition py_timedelta_seconds (j : json) : exn + timedelta :=
  match j with
  | JNum n => inr (timedelta_seconds n)
  | JBool b => inr (timedelta_seconds (if b then 1 else 0))
  | _ => inl TypeError
  end.

(** ** [json.dumps] *)

Definition hex_digit (n : nat) : ascii :=
  ascii_of_nat (if (n <? 10)%nat then 48 + n else 87 + n).

(** The double quote character. *)
Definition dquote : ascii := ascii_of_nat 34.

(** One character of a string literal, [ensure_ascii=True]. *)
Definition encode_char (c : ascii) : string :=
  let n := nat_of_ascii c in
  if Ascii.eqb c dquote then String "\"%char (String dquote "")
  else if Ascii.eqb c "\"%char then "\\"
  else if (n =? 10)%nat then "\n"
  else if (n =? 13)%nat then "\r"
  else if (n =? 9)%nat then "\t"
  else if (n =? 8)%nat then "\b"
  else if (n =? 12)%nat then "\f"
  else if (32 <=? n)%nat && (n <=? 126)%nat then String c ""
  else "\u00" +:+ String (hex_digit (n / 16)) (String (hex_digit (n mod 16)) "").

Fixpoint encode_chars (s : string) : string :=
  match s with
  | EmptyString => ""
  | String c s' => encode_char c +:+ encode_chars s'
  end.

Definition encode_basestring_ascii (s : string) : string :=
  String dquote (encode_chars s +:+ String dquote "").

Fixpoint spaces (n : nat) : string :=
  match n with
  | O => ""
  | S n' => String " "%char (spaces n')
  end.

Definition newline : string := String (ascii_of_nat 10) "".

(** Separators of [json.dumps]: [", "] between items without [indent];
    with [indent=k] a comma, a line break and [k * level] spaces. *)
Definition item_separator (indent : option nat) (level : nat) : string :=
  match indent with
  | None => ", "
  | Some k => "," +:+ newline +:+ spaces (k * level)
  end.

Definition line_break (indent : option nat) (level : nat) : string :=
  match indent with
  | None => ""
  | Some k => newline +:+ spaces (k * level)
  end.

Fixpoint dumps_at (indent : option nat) (level : nat) (j : json) : string :=
  match j with
  | JNull => "null"
  | JBool true => "true"
  | JBool false => "false"
  | JNum n => pretty n
  | JStr s => encode_basestring_ascii s
  | JArr [] => "[]"
  | JArr l =>
      "[" +:+ line_break indent (S level)
      +:+ join (item_separator indent (S level))
               (map (dumps_at indent (S level)) l)
      +:+ line_break indent level +:+ "]"
  | JObj [] => "{}"
  | JObj kvs =>
      "{" +:+ line_break indent (S level)
      +:+ join (item_separator indent (S level))
               (map (λ kv, encode_basestring_ascii kv.1 +:+ ": "
                           +:+ dumps_at indent (S level) kv.2) kvs)
      +:+ line_break indent level +:+ "}"
  end.

Definition json_dumps (indent : option nat) (j : json) : string :=
  dumps_at indent 0 j.

(** [str(j)] inside an f-string: a [str] is itself; the text Python shows
    for any other value is given by [repr]. *)
Definition py_str (repr : json → string) (j : json) : string :=
  match j with
  | JStr s => s
  | _ => repr j
  end.

(** ** [pathlib] paths

    A path is the list of its [parts]; an absolute path starts with its
    anchor, the only part that contains a slash. *)

Definition path := list string.

Fixpoint split_on (c : ascii) (s : string) : list string :=
  match s with
  | EmptyString => [""]
  | String d s' =>
      if Ascii.eqb d c then "" :: split_on c s'
      else match split_on c s' with
           | x :: r => String d x :: r
           | [] => [String d ""]
           end
  end.

Definition anchor_of (s : string) : list string :=
  if String.prefix "///" s then ["/"]
  else if String.prefix "//" s then ["//"]
  else if String.prefix "/" s then ["/"]
  else [].

Definition is_name (c : string) : bool :=
  negb (String.eqb c "") && negb (String.eqb c ".").

(** [Path(s)] *)
Definition Path (s : string) : path :=
  (anchor_of s ++ filter (λ c, is_name c = true) (split_on "/"%char s))%list.

Definition has_anchor (p : path) : bool :=
  match p with
  | a :: _ => String.prefix "/" a
  | [] => false
  end.

(** [p / s] *)
Definition truediv (p : path) (s : string) : path :=
  let q := Path s in
  if has_anchor q then q else (p ++ q)%list.

(** [p.name]: the last part, unless the path is empty or only an anchor. *)
Definition name (p : path) : string :=
  if (length p =? (if has_anchor p then 1 else 0))%nat then ""
  else List.last p "".

(** [p.parent] *)
Definition parent (p : path) : path :=
  if (length p =? 1)%nat && has_anchor p then p else removelast p.

(** The final suffix of a file name: from its last dot on, when that dot
    is neither the first nor the last character. *)
Definition suffix_of (nm : string) : string :=
  match rfind "."%char nm with
  | Some i =>
      if (0 <? i)%nat && (i <? String.length nm - 1)%nat
      then String.substring i (String.length nm - i) nm
      else ""
  | None => ""
  end.

Definition stem_of (nm : string) : string :=
  String.substring 0 (String.length nm - String.length (suffix_of nm)) nm.

(** [p.with_suffix(suffix)] *)
Definition with_suffix (p : path) (suffix : string) : exn + path :=
  if str_contains "/" suffix then inl (ValueError "Invalid suffix")
  else if (negb (String.eqb suffix "") && negb (String.prefix "." suffix))
          || String.eqb suffix "." then inl (ValueError "Invalid suffix")
  else if String.eqb (name p) "" then inl (ValueError "empty name")
  else inr (removelast p ++ [stem_of (name p) +:+ suffix])%list.

(** ** The outside world *)

Inductive ReqBody :=
| JsonBody (j : json)
| FormBody (fields : list (string * string)).

Record Request := {
  url : string;
  body : ReqBody;
  headers : list (string * string);
  timeout : Z
}.

(** [requests.post] either raises or returns a response with a status and
    a body, which decodes as JSON or does not. *)
Inductive HttpOutcome :=
| PostRaises (msg : string)
| Response (status : Z) (decoded : option json).

Record StsRequest := {
  region_name : string;
  RoleArn : json;
  RoleSessionName : string;
  WebIdentityToken : json;
  DurationSeconds : Z
}.

(** The [Credentials] entry of an STS response. *)
Record StsCredentials := {
  AccessKeyId : string;
  SecretAccessKey : string;
  SessionToken : string;
  Expiration : datetime
}.

Inductive StsOutcome :=
| StsRaises (msg : string)
| StsResponse (creds : StsCredentials).

Inductive FsOutcome :=
| FsOk
| FsFails (msg : string).

(** [write_text] opens the file for writing, which creates or empties it,
    and writes: it may fail before the file is opened, or after, with only
    the first [written] characters in the file. *)
Inductive WriteOutcome :=
| WriteOk
| OpenFails (msg : string)
| WriteFails (written : nat) (msg : string).

Inductive event :=
| EvNow (t : datetime)
| EvPost (req : Request)
| EvSts (req : StsRequest)
| EvMkdir (p : path)
| EvWriteText (p : path) (content : string)
| EvRename (src dst : path)
| EvPrint (line : string)
| EvSleep (seconds : Z).

(** The answers of the outside world, each depending on the events so far. *)
Record Env := {
  clock : list event → datetime;
  http : list event → Request → HttpOutcome;
  sts : list event → StsRequest → StsOutcome;
  fs_mkdir : list event → path → FsOutcome;
  fs_write : list event → path → string → WriteOutcome;
  fs_rename : list event → path → path → FsOutcome
}.

(** Library functions on strings that the program calls and this file does
    not define. *)
Record PyLib := {
  isoformat : datetime → string;
  fromisoformat : string → option datetime;
  b64encode : string → string;
  repr : json → string
}.

Record World := {
  trace : list event;
  files : gmap path string
}.

Definition emit (ev : event) (w : World) : World :=
  {| trace := (trace w ++ [ev])%list; files := files w |}.

(** ** Computations that raise and change a state *)

Definition M (S A : Type) : Type := S → (exn + A) * S.

Global Instance M_ret {S} : MRet (M S) := λ A a s, (inr a, s).
Global Instance M_bind {S} : MBind (M S) := λ A B f m s,
  match m s with
  | (inr a, s') => f a s'
  | (inl e, s') => (inl e, s')
  end.

Definition raise {S A} (e : exn) : M S A := λ s, (inl e, s).

Definition lift {S A} (r : exn + A) : M S A := λ s, (r, s).

(** [try: body except Exception: pass] *)
Definition try_except_Exception {S} (body : M S unit) : M S unit := λ s,
  match body s with
  | (inl e, s') => if is_Exception e then (inr (), s') else (inl e, s')
  | r => r
  end.

Definition IO := M World.

(** ** Configuration *)

Record Config := {
  idp_type : string;
  aws_region : string;
  auth0_domain : option string;
  auth0_client_id : option string;
  auth0_client_secret : option string;
  auth0_audience : option string;
  aws_role_arn : option string;
  cognito_domain : option string;
  cognito_client_id : option string;
  cognito_client_secret : option string;
  cognito_resource_server : option string;
  cognito_credential_api_url : option string
}.

(** [not os.environ.get(var)] *)
Definition unset (environ : gmap string string) (var : string) : bool :=
  match environ !! var with
  | Some v => String.eqb v ""
  | None => true
  end.

Definition auth0_required : list string :=
  ["AUTH0_DOMAIN"; "AUTH0_CLIENT_ID"; "AUTH0_CLIENT_SECRET"; "AUTH0_AUDIENCE";
   "AWS_ROLE_ARN"].

Definition cognito_required : list string :=
  ["COGNITO_DOMAIN"; "COGNITO_CLIENT_ID"; "COGNITO_CLIENT_SECRET";
   "COGNITO_RESOURCE_SERVER"; "COGNITO_CREDENTIAL_API_URL"].

Definition from_env (environ : gmap string string) : exn + Config :=
  let idp := lower (default "auth0" (environ !! "IDP_TYPE")) in
  let missing := if unset environ "AWS_REGION" then ["AWS_REGION"] else [] in
  let checked :=
    if String.eqb idp "auth0" then
      inr (missing ++ filter (λ v, unset environ v = true) auth0_required)%list
    else if String.eqb idp "cognito" then
      inr (missing ++ filter (λ v, unset environ v = true) cognito_required)%list
    else
      inl (ValueError ("Invalid IDP_TYPE: " +:+ idp
                       +:+ ". Must be 'auth0' or 'cognito'"))
  in
  match checked with
  | inl e => inl e
  | inr ((_ :: _) as missing) =>
      inl (ValueError ("Missing required environment variables: "
                       +:+ join ", " missing))
  | inr [] =>
      inr {| idp_type := idp;
             aws_region := default "" (environ !! "AWS_REGION");
             auth0_domain := environ !! "AUTH0_DOMAIN";
             auth0_client_id := environ !! "AUTH0_CLIENT_ID";
             auth0_client_secret := environ !! "AUTH0_CLIENT_SECRET";
             auth0_audience := environ !! "AUTH0_AUDIENCE";
             aws_role_arn := environ !! "AWS_ROLE_ARN";
             cognito_domain := environ !! "COGNITO_DOMAIN";
             cognito_client_id := environ !! "COGNITO_CLIENT_ID";
             cognito_client_secret := environ !! "COGNITO_CLIENT_SECRET";
             cognito_resource_server := environ !! "COGNITO_RESOURCE_SERVER";
             cognito_credential_api_url :=
               environ !! "COGNITO_CREDENTIAL_API_URL" |}
  end.

(** An optional setting inside an f-string, and as a JSON value. *)
Definition fmt (o : option string) : string := default "None" o.
Definition opt_json (o : option string) : json :=
  match o with
  | Some s => JStr s
  | None => JNull
  end.

(** ** The provider *)

Record CachedCredentials := {
  access_key_id : json;
  secret_access_key : json;
  session_token : json;
  expiration : datetime
}.

Record OidcCredentialProvider := {
  config : Config;
  _oidc_token : json;
  _oidc_expires : option datetime;
  _aws_creds : option CachedCredentials
}.

(** [OidcCredentialProvider(config)] *)
Definition new_provider (cfg : Config) : OidcCredentialProvider :=
  {| config := cfg; _oidc_token := JNull; _oidc_expires := None;
     _aws_creds := None |}.

Definition REFRESH_BUFFER : timedelta := timedelta_minutes 5.

(** Methods run on the provider object and the world. *)
Definition Prov := M (OidcCredentialProvider * World).

Definition io {A} (m : IO A) : Prov A := λ s,
  let '(r, w) := m s.2 in (r, (s.1, w)).

Definition get_self : Prov OidcCredentialProvider := λ s, (inr s.1, s).

Definition set_oidc_token (v : json) : Prov unit := λ s,
  (inr (), ({| config := config s.1; _oidc_token := v;
               _oidc_expires := _oidc_expires s.1;
               _aws_creds := _aws_creds s.1 |}, s.2)).

Definition set_oidc_expires (v : option datetime) : Prov unit := λ s,
  (inr (), ({| config := config s.1; _oidc_token := _oidc_token s.1;
               _oidc_expires := v;
               _aws_creds := _aws_creds s.1 |}, s.2)).

Definition set_aws_creds (v : option CachedCredentials) : Prov unit := λ s,
  (inr (), ({| config := config s.1; _oidc_token := _oidc_token s.1;
               _oidc_expires := _oidc_expires s.1;
               _aws_creds := v |}, s.2)).

Section Program.

Variable lib : PyLib.
Variable env : Env.

(** *** Effects *)

(** [datetime.now(timezone.utc)] *)
Definition datetime_now : IO datetime := λ w,
  let t := clock env (trace w) in (inr t, emit (EvNow t) w).

(** [requests.post(...)]: the response's status and decoded body. *)
Definition requests_post (req : Request) : IO (Z * option json) := λ w,
  match http env (trace w) req with
  | PostRaises msg => (inl (RequestException msg), emit (EvPost req) w)
  | Response status decoded => (inr (status, decoded), emit (EvPost req) w)
  end.

(** [response.raise_for_status()] raises on a 4xx or 5xx status. *)
Definition raise_for_status (status : Z) : exn + unit :=
  if (400 <=? status)%Z && (status <? 600)%Z then inl (HTTPError status)
  else inr ().

(** [response.json()] *)
Definition response_json (decoded : option json) : exn + json :=
  match decoded with
  | Some j => inr j
  | None => inl JSONDecodeError
  end.

(** [boto3.client("sts", ...).assume_role_with_web_identity(...)], of
    which the program reads the [Credentials] entry. *)
Definition assume_role_with_web_identity (req : StsRequest)
  : IO StsCredentials := λ w,
  match sts env (trace w) req with
  | StsRaises msg => (inl (ClientError msg), emit (EvSts req) w)
  | StsResponse creds => (inr creds, emit (EvSts req) w)
  end.

(** [p.mkdir(parents=True, exist_ok=True)] *)
Definition mkdir (p : path) : IO unit := λ w,
  match fs_mkdir env (trace w) p with
  | FsOk => (inr (), emit (EvMkdir p) w)
  | FsFails msg => (inl (OSError msg), emit (EvMkdir p) w)
  end.

(** [p.write_text(content)] *)
Definition write_text (p : path) (content : string) : IO unit := λ w,
  let w' := emit (EvWriteText p content) w in
  match fs_write env (trace w) p content with
  | WriteOk =>
      (inr (), {| trace := trace w'; files := <[p := content]> (files w) |})
  | OpenFails msg => (inl (OSError msg), w')
  | WriteFails written msg =>
      (inl (OSError msg),
       {| trace := trace w';
          files := <[p := String.substring 0 written content]> (files w) |})
  end.

(** [src.rename(dst)] *)
Definition rename (src dst : path) : IO unit := λ w,
  let w' := emit (EvRename src dst) w in
  match fs_rename env (trace w) src dst with
  | FsFails msg => (inl (OSError msg), w')
  | FsOk =>
      match files w !! src with
      | None => (inl (OSError "No such file or directory"), w')
      | Some content =>
          (inr (), {| trace := trace w';
                      files := <[dst := content]> (delete src (files w)) |})
      end
  end.

(** [print(line)] *)
Definition print (line : string) : IO unit := λ w,
  (inr (), emit (EvPrint line) w).

(** [time.sleep(seconds)] refuses a negative length. *)
Definition sleep (seconds : Z) : IO unit := λ w,
  if (seconds <? 0)%Z
  then (inl (ValueError "sleep length must be non-negative"), w)
  else (inr (), emit (EvSleep seconds) w).

(** *** Token exchange *)

Definition auth0_token_request (cfg : Config) : Request :=
  {| url := "https://" +:+ fmt (auth0_domain cfg) +:+ "/oauth/token";
     body := JsonBody (JObj [
       ("grant_type", JStr "client_credentials");
       ("client_id", opt_json (auth0_client_id cfg));
       ("client_secret", opt_json (auth0_client_secret cfg));
       ("audience", opt_json (auth0_audience cfg))]);
     headers := [("Content-Type", "application/json")];
     timeout := 30 |}.

Definition cognito_token_request (cfg : Config) : Request :=
  let credentials :=
    b64encode lib (fmt (cognito_client_id cfg) +:+ ":"
                   +:+ fmt (cognito_client_secret cfg)) in
  let rs := fmt (cognito_resource_server cfg) in
  let scope := rs +:+ "/write " +:+ rs +:+ "/read " +:+ rs +:+ "/delete "
               +:+ rs +:+ "/list" in
  {| url := "https://" +:+ fmt (cognito_domain cfg) +:+ ".auth."
            +:+ aws_region cfg +:+ ".amazoncognito.com/oauth2/token";
     body := FormBody [("grant_type", "client_credentials");
                       ("scope", scope)];
     headers := [("Content-Type", "application/x-www-form-urlencoded");
                 ("Authorization", "Basic " +:+ credentials)];
     timeout := 30 |}.

Definition _get_auth0_token (now : datetime) : Prov json :=
  self ← get_self;
  '(status, decoded) ← io (requests_post (auth0_token_request (config self)));
  lift (raise_for_status status);;
  result ← lift (response_json decoded);
  present ← lift (py_in "access_token" result);
  if negb present then
    raise (RuntimeError ("Auth0 token request failed: "
                         +:+ py_str (repr lib) result))
  else
    token ← lift (py_getitem result "access_token");
    set_oidc_token token;;
    expires_in ← lift (py_get result "expires_in" (JNum 86400));
    ttl ← lift (py_timedelta_seconds expires_in);
    set_oidc_expires (Some (now + ttl)%Z);;
    self ← get_self;
    mret (_oidc_token self).

Definition _get_cognito_token (now : datetime) : Prov json :=
  self ← get_self;
  '(status, decoded) ← io (requests_post (cognito_token_request (config self)));
  lift (raise_for_status status);;
  result ← lift (response_json decoded);
  present ← lift (py_in "access_token" result);
  if negb present then
    raise (RuntimeError ("Cognito token request failed: "
                         +:+ py_str (repr lib) result))
  else
    token ← lift (py_getitem result "access_token");
    set_oidc_token token;;
    expires_in ← lift (py_get result "expires_in" (JNum 86400));
    ttl ← lift (py_timedelta_seconds expires_in);
    set_oidc_expires (Some (now + ttl)%Z);;
    self ← get_self;
    mret (_oidc_token self).

Definition get_oidc_token : Prov json :=
  now ← io datetime_now;
  self ← get_self;
  let fetch :=
    if String.eqb (idp_type (config self)) "auth0" then _get_auth0_token now
    else _get_cognito_token now in
  match truthy (_oidc_token self), _oidc_expires self with
  | true, Some expires =>
      if (now <? expires - REFRESH_BUFFER)%Z then mret (_oidc_token self)
      else fetch
  | _, _ => fetch
  end.

(** *** Credential exchange *)

Definition sts_request (cfg : Config) (oidc_token : json) : StsRequest :=
  {| region_name := aws_region cfg;
     RoleArn := opt_json (aws_role_arn cfg);
     RoleSessionName := "oidc-credential-provider";
     WebIdentityToken := oidc_token;
     DurationSeconds := 3600 |}.

Definition _get_aws_credentials_auth0 : Prov CachedCredentials :=
  oidc_token ← get_oidc_token;
  self ← get_self;
  creds ← io (assume_role_with_web_identity
                (sts_request (config self) oidc_token));
  let cached := {| access_key_id := JStr (AccessKeyId creds);
                   secret_access_key := JStr (SecretAccessKey creds);
                   session_token := JStr (SessionToken creds);
                   expiration := Expiration creds |} in
  set_aws_creds (Some cached);;
  mret cached.

Definition vending_request (cfg : Config) (oidc_token : json) : Request :=
  {| url := fmt (cognito_credential_api_url cfg);
     body := JsonBody (JObj [("access_token", oidc_token)]);
     headers := [("Content-Type", "application/json")];
     timeout := 30 |}.

(** [j.replace("Z", "+00:00")]: only a [str] has the method. *)
Definition py_replace_Z (j : json) : exn + string :=
  match j with
  | JStr s => inr (replace_Z s)
  | _ => inl AttributeError
  end.

Definition py_fromisoformat (s : string) : exn + datetime :=
  match fromisoformat lib s with
  | Some t => inr t
  | None => inl (ValueError "Invalid isoformat string")
  end.

Definition _get_aws_credentials_cognito : Prov CachedCredentials :=
  oidc_token ← get_oidc_token;
  self ← get_self;
  '(status, decoded) ←
    io (requests_post (vending_request (config self) oidc_token));
  lift (raise_for_status status);;
  result ← lift (response_json decoded);
  failed ← lift (py_in "error" result);
  if failed : bool then
    err ← lift (py_getitem result "error");
    raise (RuntimeError ("Credential vending API error: "
                         +:+ py_str (repr lib) err))
  else
    creds ← lift (py_getitem result "credentials");
    raw ← lift (py_getitem creds "expiration");
    normalized ← lift (py_replace_Z raw);
    expiration ← lift (py_fromisoformat normalized);
    akid ← lift (py_getitem creds "access_key_id");
    secret ← lift (py_getitem creds "secret_access_key");
    session ← lift (py_getitem creds "session_token");
    let cached := {| access_key_id := akid;
                     secret_access_key := secret;
                     session_token := session;
                     expiration := expiration |} in
    set_aws_creds (Some cached);;
    mret cached.

Definition get_aws_credentials : Prov CachedCredentials :=
  now ← io datetime_now;
  self ← get_self;
  let refresh :=
    if String.eqb (idp_type (config self)) "auth0"
    then _get_aws_credentials_auth0
    else _get_aws_credentials_cognito in
  match _aws_creds self with
  | Some creds =>
      if (now <? expiration creds - REFRESH_BUFFER)%Z then mret creds
      else refresh
  | None => refresh
  end.

(** *** Delivery *)

Definition _atomic_write (p : path) (content : string) : IO unit :=
  tmp_path ← lift (with_suffix p ".tmp");
  write_text tmp_path content;;
  rename tmp_path p.

Definition credential_process_output (creds : CachedCredentials) : json :=
  JObj [("Version", JNum 1);
        ("AccessKeyId", access_key_id creds);
        ("SecretAccessKey", secret_access_key creds);
        ("SessionToken", session_token creds);
        ("Expiration", JStr (isoformat lib (expiration creds)))].

Definition cmd_get_credentials : Prov unit :=
  creds ← get_aws_credentials;
  io (print (json_dumps None (credential_process_output creds))).

Definition quoted (s : string) : string :=
  String dquote (s +:+ String dquote "").

Definition lines (l : list string) : string :=
  String.concat "" (map (λ x, x +:+ newline) l).

Definition env_content (generated : datetime) (creds : CachedCredentials)
    (region : string) : string :=
  let str := py_str (repr lib) in
  lines [
    "# AWS credentials - auto-refreshed by oidc-credential-provider";
    "# Generated: " +:+ isoformat lib generated;
    "# Expires: " +:+ isoformat lib (expiration creds);
    "export AWS_ACCESS_KEY_ID=" +:+ quoted (str (access_key_id creds));
    "export AWS_SECRET_ACCESS_KEY=" +:+ quoted (str (secret_access_key creds));
    "export AWS_SESSION_TOKEN=" +:+ quoted (str (session_token creds));
    "export AWS_REGION=" +:+ quoted region ].

Definition json_content (creds : CachedCredentials) (region : string)
  : string :=
  json_dumps (Some 2%nat)
    (JObj [("access_key_id", access_key_id creds);
           ("secret_access_key", secret_access_key creds);
           ("session_token", session_token creds);
           ("expiration", JStr (isoformat lib (expiration creds)));
           ("region", JStr region)]).

Definition aws_creds_content (generated : datetime)
    (creds : CachedCredentials) (region : string) : string :=
  let str := py_str (repr lib) in
  lines [
    "# AWS credentials - auto-refreshed by oidc-credential-provider";
    "# Generated: " +:+ isoformat lib generated;
    "# Expires: " +:+ isoformat lib (expiration creds);
    "[default]";
    "aws_access_key_id = " +:+ str (access_key_id creds);
    "aws_secret_access_key = " +:+ str (secret_access_key creds);
    "aws_session_token = " +:+ str (session_token creds);
    "region = " +:+ region ].

(** The three files of the credential daemon. *)
Definition env_file (creds_path : path) : path :=
  truediv creds_path "aws-credentials.env".
Definition json_file (creds_path : path) : path :=
  truediv creds_path "aws-credentials.json".
Definition aws_creds_file (creds_path : path) : path :=
  truediv creds_path "credentials".

(** The [try] block of the credential daemon's loop. *)
Definition credential_refresh (creds_path : path) : Prov unit :=
  creds ← get_aws_credentials;
  generated ← io datetime_now;
  self ← get_self;
  let region := aws_region (config self) in
  io (_atomic_write (env_file creds_path)
        (env_content generated creds region));;
  io (_atomic_write (json_file creds_path) (json_content creds region));;
  generated' ← io datetime_now;
  io (_atomic_write (aws_creds_file creds_path)
        (aws_creds_content generated' creds region)).

(** One turn of [while True]. *)
Definition credential_daemon_cycle (creds_path : path) (interval : Z)
  : Prov unit :=
  try_except_Exception (credential_refresh creds_path);;
  io (sleep interval).

(** The first [n] turns of [while True]. *)
Fixpoint credential_daemon_loop (n : nat) (creds_path : path) (interval : Z)
  : Prov unit :=
  match n with
  | O => mret ()
  | S n' =>
      credential_daemon_cycle creds_path interval;;
      credential_daemon_loop n' creds_path interval
  end.

(** [cmd_credential_daemon], followed for [n] turns of its loop. *)
Definition cmd_credential_daemon (n : nat) (creds_dir : string)
    (interval : Z) : Prov unit :=
  let creds_path := Path creds_dir in
  io (mkdir creds_path);;
  credential_daemon_loop n creds_path interval.

(** The [try] block of the token daemon's loop; [write_text] refuses
    content that is not a [str]. *)
Definition token_refresh (token_file : path) : Prov unit :=
  token ← get_oidc_token;
  io (mkdir (parent token_file));;
  match token with
  | JStr s => io (_atomic_write token_file s)
  | _ => lift (with_suffix token_file ".tmp");; raise TypeError
  end.

Definition token_daemon_cycle (token_file : path) (interval : Z)
  : Prov unit :=
  try_except_Exception (token_refresh token_file);;
  io (sleep interval).

Fixpoint token_daemon_loop (n : nat) (token_file : path) (interval : Z)
  : Prov unit :=
  match n with
  | O => mret ()
  | S n' =>
      token_daemon_cycle token_file interval;;
      token_daemon_loop n' token_file interval
  end.

(** [cmd_token_daemon], followed for [n] turns of its loop. *)
Definition cmd_token_daemon (n : nat) (token_path : string) (interval : Z)
  : Prov unit :=
  self ← get_self;
  if negb (String.eqb (idp_type (config self)) "auth0") then
    raise (SystemExit 1)
  else
    let token_file := Path token_path in
    token_daemon_loop n token_file interval.

(** *** Entry point *)

(** The parsed command line; an option left out takes its default. *)
Inductive Command :=
| GetCredentials
| CredentialDaemon (creds_dir : option string) (interval : option Z)
| TokenDaemon (token_file : option string) (interval : option Z).

Definition default_creds_dir : string := "/var/run/aws-creds".
Definition default_credential_interval : Z := 2700.
Definition default_token_file : string := "/var/run/oidc/token".
Definition default_token_interval : Z := 3600.

(** How the process stands: it exited with a code, or its daemon loop is
    still turning after the turns that were followed. *)
Inductive Status :=
| Exited (code : Z)
| Looping.

Definition run_command (n : nat) (cmd : Command) : Prov unit :=
  match cmd with
  | GetCredentials => cmd_get_credentials
  | CredentialDaemon creds_dir interval =>
      cmd_credential_daemon n (default default_creds_dir creds_dir)
        (default default_credential_interval interval)
  | TokenDaemon token_file interval =>
      cmd_token_daemon n (default default_token_file token_file)
        (default default_token_interval interval)
  end.

Definition is_daemon (cmd : Command) : bool :=
  match cmd with
  | GetCredentials => false
  | _ => true
  end.

(** [main]: both [except] clauses end in [sys.exit(1)]; a [SystemExit]
    raised inside the [try] passes through them. *)
Definition main (n : nat) (environ : gmap string string) (cmd : Command)
    (w : World) : Status * World :=
  match from_env environ with
  | inl _ => (Exited 1, w)
  | inr cfg =>
      match run_command n cmd (new_provider cfg, w) with
      | (inr _, (_, w')) => (if is_daemon cmd then Looping else Exited 0, w')
      | (inl (SystemExit code), (_, w')) => (Exited code, w')
      | (inl _, (_, w')) => (Exited 1, w')
      end
  end.

End Program.

(** ** Vocabulary of the properties *)

(** The cache test of [get_oidc_token]: a token and an expiry are stored
    (both are true values) and the refresh buffer has not been reached. *)
Definition token_cache_valid (self : OidcCredentialProvider) (now : datetime)
  : bool :=
  truthy (_oidc_token self) &&
  match _oidc_expires self with
  | Some expires => (now <? expires - REFRESH_BUFFER)%Z
  | None => false
  end.

(** The cache test of [get_aws_credentials]. *)
Definition creds_cache_valid (self : OidcCredentialProvider) (now : datetime)
  : bool :=
  match _aws_creds self with
  | Some creds => (now <? expiration creds - REFRESH_BUFFER)%Z
  | None => false
  end.

(** The token request of the configured provider. *)
Definition token_request (lib : PyLib) (cfg : Config) : Request :=
  if String.eqb (idp_type cfg) "auth0" then auth0_token_request cfg
  else cognito_token_request lib cfg.

(** The token method of the configured provider, as [get_oidc_token]
    selects it. *)
Definition fetch (lib : PyLib) (env : Env) (self : OidcCredentialProvider)
    (now : datetime) : Prov json :=
  if String.eqb (idp_type (config self)) "auth0"
  then _get_auth0_token lib env now
  else _get_cognito_token lib env now.

(** The provider after a token was stored. *)
Definition with_token (self : OidcCredentialProvider) (token : json)
    (expires : datetime) : OidcCredentialProvider :=
  {| config := config self; _oidc_token := token;
     _oidc_expires := Some expires; _aws_creds := _aws_creds self |}.

(** The ways a token fetch fails: no response, a status that
    [raise_for_status] refuses, a body that is not JSON, a body without
    [access_token]. *)
Definition fetch_error (e : exn) : bool :=
  match e with
  | RequestException _ | HTTPError _ | JSONDecodeError | RuntimeError _ => true
  | _ => false
  end.

(** The lifetime a token response announces. *)
Definition reported_ttl (result : json) : exn + timedelta :=
  match py_get result "expires_in" (JNum 86400) with
  | inr expires_in => py_timedelta_seconds expires_in
  | inl e => inl e
  end.

(** Events of the token path, and events that publish a file. *)
Definition is_token_event (ev : event) : bool :=
  match ev with
  | EvNow _ | EvPost _ => true
  | _ => false
  end.

Definition is_publish_event (ev : event) : bool :=
  match ev with
  | EvWriteText _ _ | EvRename _ _ => true
  | _ => false
  end.

Definition is_sleep_event (ev : event) : bool :=
  match ev with
  | EvSleep _ => true
  | _ => false
  end.

Definition is_print_event (ev : event) : bool :=
  match ev with
  | EvPrint _ => true
  | _ => false
  end.

(** Events of the exchange: clock readings and calls to the identity
    provider, the vending API and STS. *)
Definition is_exchange_event (ev : event) : bool :=
  match ev with
  | EvNow _ | EvPost _ | EvSts _ => true
  | _ => false
  end.

(** [w'] continues [w] with events that all satisfy [P]. *)
Definition extends (P : event → bool) (w w' : World) : Prop :=
  ∃ evs, trace w' = (trace w ++ evs)%list ∧ forallb P evs = true.

(** [w'] continues [w] with events of the exchange and the same files. *)
Definition exchanged (w w' : World) : Prop :=
  extends is_exchange_event w w' ∧ files w' = files w.

(** [w'] continues [w] without any sleep. *)
Definition unslept (w w' : World) : Prop :=
  extends (λ ev, negb (is_sleep_event ev)) w w'.

(** Every run of a computation relates the world before to the world
    after by [R]. *)
Definition io_sat (R : World → World → Prop) {A} (m : IO A) : Prop :=
  ∀ w r w', m w = (r, w') → R w w'.

Definition sat (R : World → World → Prop) {A} (m : Prov A) : Prop :=
  ∀ self w r self' w', m (self, w) = (r, (self', w')) → R w w'.

(** A computation raises nothing that [except Exception] lets through. *)
Definition safe {S A} (m : M S A) : Prop :=
  ∀ s e s', m s = (inl e, s') → is_Exception e = true.

Definition safe_result {A} (r : exn + A) : Prop :=
  ∀ e, r = inl e → is_Exception e = true.

(** The text an exception carries. *)
Definition carries (e : exn) (text : string) : bool :=
  match e with
  | RequestException msg | RuntimeError msg | ValueError msg | OSError msg
  | ClientError msg => str_contains text msg
  | KeyError key => str_contains text key
  | _ => false
  end.

(** The events a run added to the trace. *)
Definition added (w w' : World) : list event :=
  drop (length (trace w)) (trace w').

(** ** Sample surroundings, for the instances below *)

Module Sample.

Definition lib : PyLib :=
  {| isoformat := λ t, "T" +:+ pretty t;
     fromisoformat := λ _, None;
     b64encode := λ s, s;
     repr := λ _, "<value>" |}.

Definition auth0 : Config :=
  {| idp_type := "auth0"; aws_region := "eu-west-1";
     auth0_domain := Some "tenant.auth0.com";
     auth0_client_id := Some "id"; auth0_client_secret := Some "secret";
     auth0_audience := Some "api"; aws_role_arn := Some "arn:aws:iam::1:role/r";
     cognito_domain := None; cognito_client_id := None;
     cognito_client_secret := None; cognito_resource_server := None;
     cognito_credential_api_url := None |}.

Definition cognito : Config :=
  {| idp_type := "cognito"; aws_region := "eu-west-1";
     auth0_domain := None; auth0_client_id := None;
     auth0_client_secret := None; auth0_audience := None;
     aws_role_arn := None;
     cognito_domain := Some "pool"; cognito_client_id := Some "id";
     cognito_client_secret := Some "secret";
     cognito_resource_server := Some "rs";
     cognito_credential_api_url := Some "https://vend.example/creds" |}.

Definition cognito_environ : gmap string string :=
  list_to_map [("IDP_TYPE", "cognito"); ("AWS_REGION", "eu-west-1");
               ("COGNITO_DOMAIN", "pool"); ("COGNITO_CLIENT_ID", "id");
               ("COGNITO_CLIENT_SECRET", "secret");
               ("COGNITO_RESOURCE_SERVER", "rs");
               ("COGNITO_CREDENTIAL_API_URL", "https://vend.example/creds")].

Definition auth0_environ : gmap string string :=
  list_to_map [("AWS_REGION", "eu-west-1");
               ("AUTH0_DOMAIN", "tenant.auth0.com"); ("AUTH0_CLIENT_ID", "id");
               ("AUTH0_CLIENT_SECRET", "secret"); ("AUTH0_AUDIENCE", "api");
               ("AWS_ROLE_ARN", "arn:aws:iam::1:role/r")].

Definition token_body : json :=
  JObj [("access_token", JStr "jwt"); ("expires_in", JNum 3600)].

Definition sts_creds (t0 : datetime) : StsCredentials :=
  {| AccessKeyId := "AKIA1"; SecretAccessKey := "s3cr3t";
     SessionToken := "tok1";
     Expiration := (t0 + timedelta_seconds 3600)%Z |}.

(** A world in which the clock stands at [now], every POST is answered by
    [answer], STS hands out [sts_creds now] and the file system works. *)
Definition world (now : datetime) (answer : Request → HttpOutcome) : Env :=
  {| clock := λ _, now;
     http := λ _ req, answer req;
     sts := λ _ _, StsResponse (sts_creds now);
     fs_mkdir := λ _ _, FsOk;
     fs_write := λ _ _ _, WriteOk;
     fs_rename := λ _ _ _, FsOk |}.

(** The identity provider answers with a token; the vending API answers
    [vending]. *)
Definition answers (vending : HttpOutcome) (req : Request) : HttpOutcome :=
  if String.eqb (url req) "https://vend.example/creds" then vending
  else Response 200 (Some token_body).

Definition start : World := {| trace := []; files := ∅ |}.

(** A provider that holds the token [jwt], good until instant 4000000000. *)
Definition warm (cfg : Config) : OidcCredentialProvider :=
  {| config := cfg; _oidc_token := JStr "jwt";
     _oidc_expires := Some 4000000000%Z; _aws_creds := None |}.

Definition idp_up : Env := world 1000 (answers (PostRaises "unused")).

(** The identity provider answers 500 at instant 200 s. *)
Definition idp_down : Env :=
  world 200000000 (λ _, Response 500 None).

(** The same, a clock that was set back to 50 s. *)
Definition idp_down_earlier : Env :=
  world 50000000 (λ _, Response 500 None).

(** A provider whose token expires at 400 s. *)
Definition expiring : OidcCredentialProvider :=
  {| config := auth0; _oidc_token := JStr "jwt";
     _oidc_expires := Some 400000000%Z; _aws_creds := None |}.

Definition invalid_client : json := JObj [("error", JStr "invalid_client")].

Definition vending_refuses (status : Z) : Env :=
  world 1000 (answers (Response status (Some invalid_client))).

Definition cached : CachedCredentials :=
  {| access_key_id := JStr "AKIA1"; secret_access_key := JStr "s3cr3t";
     session_token := JStr "tok1"; expiration := 4000000000 |}.

Definition with_creds : OidcCredentialProvider :=
  {| config := auth0; _oidc_token := JNull; _oidc_expires := None;
     _aws_creds := Some cached |}.

(** A disk that fills up after three characters. *)
Definition disk_full : Env :=
  {| clock := λ _, 1000%Z;
     http := λ _ _, PostRaises "unused";
     sts := λ _ _, StsRaises "unused";
     fs_mkdir := λ _ _, FsOk;
     fs_write := λ _ _ _, WriteFails 3 "No space left on device";
     fs_rename := λ _ _ _, FsOk |}.

Definition token_file : path := ["/"; "run"; "oidc"; "token"].
Definition token_tmp : path := ["/"; "run"; "oidc"; "token.tmp"].

Definition published : World :=
  {| trace := []; files := {[ token_file := "old token" ]} |}.

End Sample.

(** ** Vocabulary of the further properties *)

(** The identity provider [from_env] selects. *)
Definition selected_idp (environ : gmap string string) : string :=
  lower (default "auth0" (environ !! "IDP_TYPE")).

(** The variables [from_env] requires for an identity provider. *)
Definition required_settings (idp : string) : list string :=
  "AWS_REGION" ::
  (if String.eqb idp "auth0" then auth0_required else cognito_required).

(** The identity provider is one of the two, and every variable it requires
    is set to a non-empty value. *)
Definition config_complete (environ : gmap string string) : bool :=
  (String.eqb (selected_idp environ) "auth0"
   || String.eqb (selected_idp environ) "cognito")
  && forallb (λ v, negb (unset environ v))
       (required_settings (selected_idp environ)).

(** A setting that holds a non-empty value. *)
Definition present (o : option string) : bool :=
  match o with
  | Some s => negb (String.eqb s "")
  | None => false
  end.

(** What an exchange leaves in the provider: the configuration as it was,
    and the credential cache as it was or holding the result. *)
Definition exchange_outcome (self : OidcCredentialProvider)
    (r : exn + CachedCredentials) (self' : OidcCredentialProvider) : Prop :=
  config self' = config self ∧
  match r with
  | inl _ => _aws_creds self' = _aws_creds self
  | inr creds => _aws_creds self' = Some creds
  end.

(** The provider after credentials were stored. *)
Definition with_creds_of (self : OidcCredentialProvider)
    (cached : CachedCredentials) : OidcCredentialProvider :=
  {| config := config self; _oidc_token := _oidc_token self;
     _oidc_expires := _oidc_expires self; _aws_creds := Some cached |}.

(** A published file is as it was in [w], or holds a complete rendering of
    some credentials. *)
Definition kept_or (rendering : string → Prop) (f : path) (w w' : World)
  : Prop :=
  files w' !! f = files w !! f ∨
  ∃ content, rendering content ∧ files w' !! f = Some content.

(** The three files of the credential daemon are each as in [w] or
    complete. *)
Definition complete_or_kept (lib : PyLib) (creds_path : path)
    (w w' : World) : Prop :=
  kept_or (λ c, ∃ t creds region, c = env_content lib t creds region)
    (env_file creds_path) w w' ∧
  kept_or (λ c, ∃ creds region, c = json_content lib creds region)
    (json_file creds_path) w w' ∧
  kept_or (λ c, ∃ t creds region, c = aws_creds_content lib t creds region)
    (aws_creds_file creds_path) w w'.

(** Events of the token daemon: everything but STS calls, prints and
    sleeps. *)
Definition is_token_publish_event (ev : event) : bool :=
  match ev with
  | EvNow _ | EvPost _ | EvMkdir _ | EvWriteText _ _ | EvRename _ _ => true
  | _ => false
  end.

Definition is_sts_event (ev : event) : bool :=
  match ev with
  | EvSts _ => true
  | _ => false
  end.

(** A method leaves the configuration and the credential cache of the
    provider as they were. *)
Definition keeps_credentials {A} (m : Prov A) : Prop :=
  ∀ self w r self' w',
    m (self, w) = (r, (self', w')) →
    config self' = config self ∧ _aws_creds self' = _aws_creds self.

(** Requests to the identity provider, the vending API or STS. *)
Definition is_request_event (ev : event) : bool :=
  match ev with
  | EvPost _ | EvSts _ => true
  | _ => false
  end.

(** The request that exchanges a token for credentials: the STS call of
    the auth0 backend, the post to the vending API of the cognito one. *)
Definition exchange_event (cfg : Config) (token : json) : event :=
  if String.eqb (idp_type cfg) "auth0" then EvSts (sts_request cfg token)
  else EvPost (vending_request cfg token).

(** ** [scripts/s3_ops.py]

    The S3 operations run against a world of their own: which local paths
    exist and what S3 answers is given by an [S3Env]; every S3 request and
    every printed line is an [s3_event] of the trace. *)

Module S3Ops.

Inductive s3_event :=
| S3Upload (region file bucket key : string)
| S3Download (region bucket key file : string)
| S3List (region bucket list_prefix : string)
| S3Delete (region bucket key : string)
| S3Print (line : string).

(** A page of [list_objects_v2]: the request fails, or the page comes with
    or without a [Contents] entry, which holds the keys. *)
Inductive PageOutcome :=
| PageFails (msg : string)
| Page (contents : option (list string)).

(** The answers of the local file system and of S3; a request that fails
    answers with the message of its error. *)
Record S3Env := {
  path_exists : list s3_event → path → bool;
  upload_file : list s3_event → string → string → string → string
                → option string;
  download_file : list s3_event → string → string → string → string
                  → option string;
  list_pages : list s3_event → string → string → string → list PageOutcome;
  delete_object : list s3_event → string → string → string → option string
}.

Definition S3 := M (list s3_event).

Definition s3_emit (ev : s3_event) : S3 unit := λ t,
  (inr (), (t ++ [ev])%list).

(** [str(p)] for a path. *)
Definition str_path (p : path) : string :=
  match p with
  | [] => "."
  | a :: rest =>
      if String.prefix "/" a then a +:+ join "/" rest
      else join "/" (a :: rest)
  end.

Definition get_config (environ : gmap string string)
  : exn + (string * string * string) :=
  let region := environ !! "AWS_REGION" in
  let bucket := environ !! "S3_BUCKET" in
  let prefix := default "" (environ !! "S3_PATH_PREFIX") in
  let missing :=
    ((if negb (present region) then ["AWS_REGION"] else [])
     ++ (if negb (present bucket) then ["S3_BUCKET"] else []))%list in
  match missing with
  | _ :: _ =>
      inl (ValueError ("Missing required environment variables: "
                       +:+ join ", " missing))
  | [] => inr (default "" region, default "" bucket, prefix)
  end.

Section Commands.

Variable env : S3Env.

(** An S3 request: it is recorded, and raises when S3 answers an error. *)
Definition request (ev : s3_event) (answer : list s3_event → option string)
  : S3 unit := λ t,
  match answer t with
  | Some msg => (inl (ClientError msg), (t ++ [ev])%list)
  | None => (inr (), (t ++ [ev])%list)
  end.

Definition print (line : string) : S3 unit := s3_emit (S3Print line).

Definition cmd_upload (file : string) (key : option string)
    (region bucket prefix : string) : S3 unit := λ t,
  let local_path := Path file in
  if negb (path_exists env t local_path) then
    (inl (OSError ("File not found: " +:+ str_path local_path)), t)
  else
    let s3_key := if present key then default "" key
                  else prefix +:+ name local_path in
    (request (S3Upload region (str_path local_path) bucket s3_key)
       (λ t, upload_file env t region (str_path local_path) bucket s3_key);;
     print ("s3://" +:+ bucket +:+ "/" +:+ s3_key)) t.

Definition cmd_download (s3_key local_path : string)
    (region bucket prefix : string) : S3 unit :=
  request (S3Download region bucket s3_key local_path)
    (λ t, download_file env t region bucket s3_key local_path);;
  print ("Downloaded to " +:+ local_path).

(** The loop over the pages: a page that fails raises, a page that came is
    printed key by key. *)
Fixpoint print_pages (pages : list PageOutcome) : S3 unit :=
  match pages with
  | [] => mret ()
  | PageFails msg :: _ => raise (ClientError msg)
  | Page contents :: rest =>
      foldr (λ key k, print key;; k) (mret ()) (default [] contents);;
      print_pages rest
  end.

Definition cmd_list (list_prefix_arg : option string)
    (region bucket prefix : string) : S3 unit := λ t,
  let list_prefix := if present list_prefix_arg
                     then default "" list_prefix_arg else prefix in
  (s3_emit (S3List region bucket list_prefix);;
   print_pages (list_pages env t region bucket list_prefix)) t.

Definition cmd_delete (s3_key : string) (region bucket prefix : string)
  : S3 unit :=
  request (S3Delete region bucket s3_key)
    (λ t, delete_object env t region bucket s3_key);;
  print ("Deleted " +:+ s3_key).

(** The parsed command line. *)
Inductive Command :=
| Upload (file : string) (key : option string)
| Download (s3_key local_path : string)
| List (list_prefix : option string)
| Delete (s3_key : string).

(** [main]: every [except] clause ends in [sys.exit(1)]. *)
Definition main (environ : gmap string string) (cmd : Command)
    (t : list s3_event) : Z * list s3_event :=
  match get_config environ with
  | inl _ => (1, t)
  | inr (region, bucket, prefix) =>
      let run :=
        match cmd with
        | Upload file key => cmd_upload file key region bucket prefix
        | Download s3_key local_path =>
            cmd_download s3_key local_path region bucket prefix
        | List list_prefix => cmd_list list_prefix region bucket prefix
        | Delete s3_key => cmd_delete s3_key region bucket prefix
        end in
      match run t with
      | (inr _, t') => (0, t')
      | (inl (SystemExit code), t') => (code, t')
      | (inl _, t') => (1, t')
      end
  end.

End Commands.

(** The lines printed in a trace, and the keys of the pages that came. *)
Definition printed (t : list s3_event) : list string :=
  omap (λ ev, match ev with S3Print line => Some line | _ => None end) t.

Definition keys_of (pages : list PageOutcome) : list string :=
  concat (map (λ page, match page with
                       | Page contents => default [] contents
                       | PageFails _ => []
                       end) pages).

Definition came (page : PageOutcome) : bool :=
  match page with
  | Page _ => true
  | PageFails _ => false
  end.

End S3Ops.

(** ** Further sample surroundings *)

Module Cases.

Import Sample.

(** The auth0 settings without the audience. *)
Definition incomplete_environ : gmap string string :=
  delete "AUTH0_AUDIENCE" auth0_environ.

(** The provider after it fetched the token [jwt] at instant 1000. *)
Definition fetched (cfg : Config) : OidcCredentialProvider :=
  with_token (new_provider cfg) (JStr "jwt") (1000 + timedelta_seconds 3600).

(** The identity provider announces a lifetime of one minute. *)
Definition short_lived : Env :=
  world 1000
    (λ _, Response 200
            (Some (JObj [("access_token", JStr "jwt");
                         ("expires_in", JNum 60)]))).

(** The identity provider hands out an empty token. *)
Definition empty_token : Env :=
  world 1000
    (λ _, Response 200
            (Some (JObj [("access_token", JStr "");
                         ("expires_in", JNum 3600)]))).

(** The identity provider hands out a number as token. *)
Definition numeric_token : Env :=
  world 1000
    (λ _, Response 200
            (Some (JObj [("access_token", JNum 7);
                         ("expires_in", JNum 3600)]))).

(** STS refuses the role. *)
Definition sts_down : Env :=
  {| clock := λ _, 1000%Z;
     http := λ _ req, answers (PostRaises "unused") req;
     sts := λ _ _, StsRaises "AccessDenied";
     fs_mkdir := λ _ _, FsOk;
     fs_write := λ _ _ _, WriteOk;
     fs_rename := λ _ _ _, FsOk |}.

(** A provider whose credentials ran out at instant 0. *)
Definition stale : CachedCredentials :=
  {| access_key_id := JStr "AKIA0"; secret_access_key := JStr "old";
     session_token := JStr "tok0"; expiration := 0 |}.

Definition with_stale : OidcCredentialProvider :=
  {| config := cognito; _oidc_token := JStr "jwt";
     _oidc_expires := Some 4000000000%Z; _aws_creds := Some stale |}.

(** The credentials STS hands out at instant 1000, as they are cached. *)
Definition exchanged_creds : CachedCredentials :=
  {| access_key_id := JStr "AKIA1"; secret_access_key := JStr "s3cr3t";
     session_token := JStr "tok1";
     expiration := (1000 + timedelta_seconds 3600)%Z |}.

(** A library that reads one expiration text: the first instant of 2030,
    in UTC. *)
Definition iso_lib : PyLib :=
  {| isoformat := isoformat lib;
     fromisoformat := λ s,
       if String.eqb s "2030-01-01T00:00:00+00:00"
       then Some 1893456000000000%Z else None;
     b64encode := b64encode lib;
     repr := repr lib |}.

Definition vended_credentials : list (string * json) :=
  [("access_key_id", JStr "AKIA2"); ("secret_access_key", JStr "s3cr3t2");
   ("session_token", JStr "tok2");
   ("expiration", JStr "2030-01-01T00:00:00Z")].

Definition vended : CachedCredentials :=
  {| access_key_id := JStr "AKIA2"; secret_access_key := JStr "s3cr3t2";
     session_token := JStr "tok2"; expiration := 1893456000000000 |}.

(** The vending API hands out [vended_credentials]. *)
Definition vending_up : Env :=
  world 1000
    (answers (Response 200
                (Some (JObj [("credentials", JObj vended_credentials)])))).

(** The vending API answers with an empty object. *)
Definition vending_empty : Env :=
  world 1000 (answers (Response 200 (Some (JObj [])))).

(** A file system that refuses every rename. *)
Definition rename_refused : Env :=
  {| clock := λ _, 1000%Z;
     http := λ _ req, answers (PostRaises "unused") req;
     sts := λ _ _, StsResponse (sts_creds 1000);
     fs_mkdir := λ _ _, FsOk;
     fs_write := λ _ _ _, WriteOk;
     fs_rename := λ _ _ _, FsFails "Permission denied" |}.

(** Everything answers, but the disk fills up after three characters. *)
Definition disk_fills : Env :=
  {| clock := λ _, 1000%Z;
     http := λ _ req, answers (PostRaises "unused") req;
     sts := λ _ _, StsResponse (sts_creds 1000);
     fs_mkdir := λ _ _, FsOk;
     fs_write := λ _ _ _, WriteFails 3 "No space left on device";
     fs_rename := λ _ _ _, FsOk |}.

(** The S3 side: the settings, and a bucket that accepts every request
    and lists two pages. *)
Definition s3_environ : gmap string string :=
  list_to_map [("AWS_REGION", "eu-west-1"); ("S3_BUCKET", "backups");
               ("S3_PATH_PREFIX", "logs/")].

Definition s3_up : S3Ops.S3Env :=
  {| S3Ops.path_exists := λ _ _, true;
     S3Ops.upload_file := λ _ _ _ _ _, None;
     S3Ops.download_file := λ _ _ _ _ _, None;
     S3Ops.list_pages := λ _ _ _ _,
       [S3Ops.Page (Some ["logs/a"; "logs/b"]); S3Ops.Page None;
        S3Ops.Page (Some ["logs/c"])];
     S3Ops.delete_object := λ _ _ _ _, None |}.

End Cases.

(** * Properties *)

(** Unfolding of the monadic plumbing. *)
Ltac unfold_monad :=
  unfold mbind, M_bind, mret, M_ret, io, lift, raise, get_self,
    set_oidc_token, set_oidc_expires, set_aws_creds in *.

Ltac unfold_effects :=
  unfold requests_post, datetime_now, assume_role_with_web_identity,
    mkdir, write_text, rename, print, sleep in *.

(** ** The token cache *)

Section TokenCache.

Context (lib : PyLib) (env : Env).

Implicit Types (self : OidcCredentialProvider) (w : World).

Lemma emit_trace ev w : trace (emit ev w) = (trace w ++ [ev])%list.
Proof. reflexivity. Qed.

Lemma emit_files ev w : files (emit ev w) = files w.
Proof. reflexivity. Qed.

Lemma added_emit ev w : added w (emit ev w) = [ev].
Proof. unfold added. rewrite emit_trace. by rewrite drop_app_length. Qed.

Lemma added_app w w' evs :
  trace w' = (trace w ++ evs)%list → added w w' = evs.
Proof. unfold added. intros ->. by rewrite drop_app_length. Qed.

(** On a valid cache [get_oidc_token] reads the clock and returns. *)
Lemma get_oidc_token_hit self w :
  token_cache_valid self (clock env (trace w)) = true →
  get_oidc_token lib env (self, w)
  = (inr (_oidc_token self), (self, emit (EvNow (clock env (trace w))) w)).
Proof.
  unfold token_cache_valid. intros [Ht He]%andb_true_iff.
  unfold get_oidc_token, datetime_now. unfold_monad. simpl.
  rewrite Ht. destruct (_oidc_expires self) as [expires|]; [|done].
  by rewrite He.
Qed.

(** Otherwise it goes on to the token method of the configured provider. *)
Lemma get_oidc_token_miss self w :
  token_cache_valid self (clock env (trace w)) = false →
  get_oidc_token lib env (self, w)
  = fetch lib env self (clock env (trace w))
      (self, emit (EvNow (clock env (trace w))) w).
Proof.
  unfold token_cache_valid. intros Hv.
  unfold get_oidc_token, fetch, datetime_now. unfold_monad. simpl.
  destruct (truthy (_oidc_token self)); [|done].
  destruct (_oidc_expires self) as [expires|]; [|done].
  simpl in Hv. by rewrite Hv.
Qed.

(** What a token method does, by the answer its request gets. *)

Lemma fetch_posts_once self w now r self' w' :
  fetch lib env self now (self, w) = (r, (self', w')) →
  w' = emit (EvPost (token_request lib (config self))) w.
Proof.
  unfold fetch, token_request, _get_auth0_token, _get_cognito_token.
  unfold_monad. unfold_effects. simpl. intros H.
  repeat case_match; by simplify_eq/=.
Qed.

Lemma fetch_failure_keeps_cache self w now e self' w' :
  fetch lib env self now (self, w) = (inl e, (self', w')) →
  fetch_error e = true → self' = self.
Proof.
  unfold fetch, token_request, _get_auth0_token, _get_cognito_token.
  unfold_monad. unfold_effects. simpl. intros H He.
  repeat case_match; simplify_eq/=; try done;
    unfold py_get, py_timedelta_seconds in *;
    repeat case_match; by simplify_eq/=.
Qed.

Lemma fetch_success self w now token self' w' :
  fetch lib env self now (self, w) = (inr token, (self', w')) →
  ∃ status result ttl,
    http env (trace w) (token_request lib (config self))
      = Response status (Some result) ∧
    raise_for_status status = inr () ∧
    py_getitem result "access_token" = inr token ∧
    reported_ttl result = inr ttl ∧
    self' = with_token self token (now + ttl).
Proof.
  unfold fetch, token_request, _get_auth0_token, _get_cognito_token,
    reported_ttl, with_token.
  unfold_monad. unfold_effects. simpl. intros H.
  repeat case_match; simplify_eq/=.
  all: destruct o as [result|]; simplify_eq/=; destruct u.
  all: eexists _, _, _; split; [eassumption|]; split; [done|].
  all: split; [done|]; rewrite H9; by split.
Qed.

Lemma fetch_well_formed self w now status kvs token ttl :
  http env (trace w) (token_request lib (config self))
    = Response status (Some (JObj kvs)) →
  raise_for_status status = inr () →
  assoc "access_token" kvs = Some token →
  reported_ttl (JObj kvs) = inr ttl →
  fetch lib env self now (self, w)
  = (inr token, (with_token self token (now + ttl),
                 emit (EvPost (token_request lib (config self))) w)).
Proof.
  unfold fetch, token_request, _get_auth0_token, _get_cognito_token,
    reported_ttl, with_token.
  unfold_monad. unfold_effects. simpl.
  destruct (String.eqb _ _); simpl; intros H1 H2 H3 H4.
  all: rewrite H1; simpl; rewrite H2; simpl; rewrite H3; simpl.
  all: destruct (py_timedelta_seconds _); by simplify_eq/=.
Qed.

(** Outside the fetch errors: a lifetime that is not a number is refused
    by [timedelta] after the token was stored, so the new token stays in
    the cache with the expiry of the old one. *)
Remark ill_typed_lifetime_keeps_new_token
    self w now status kvs token (text : string) :
  http env (trace w) (token_request lib (config self))
    = Response status (Some (JObj kvs)) →
  raise_for_status status = inr () →
  assoc "access_token" kvs = Some token →
  assoc "expires_in" kvs = Some (JStr text) →
  fetch lib env self now (self, w)
  = (inl TypeError,
     ({| config := config self; _oidc_token := token;
         _oidc_expires := _oidc_expires self;
         _aws_creds := _aws_creds self |},
      emit (EvPost (token_request lib (config self))) w)).
Proof.
  unfold fetch, token_request, _get_auth0_token, _get_cognito_token.
  unfold_monad. unfold_effects. simpl.
  destruct (String.eqb _ _); simpl; intros H1 H2 H3 H4.
  all: rewrite H1; simpl; rewrite H2; simpl; rewrite H3; simpl.
  all: by rewrite H4.
Qed.

Lemma token_cache_miss_iff self now :
  token_cache_valid self now = false ↔
  (truthy (_oidc_token self) = false ∨ _oidc_expires self = None) ∨
  ∃ expires, _oidc_expires self = Some expires ∧
             (expires - now ≤ REFRESH_BUFFER)%Z.
Proof.
  unfold token_cache_valid.
  destruct (truthy (_oidc_token self)), (_oidc_expires self) as [expires|];
    simpl; rewrite ?Z.ltb_ge; split; try (intros; by eauto).
  - intros H. right. exists expires. split; [done|lia].
  - intros [[?|?]|(x & ? & ?)]; simplify_eq. lia.
Qed.

(** C1. Whenever a cached token exists (the provider holds a token and an
    expiry, which is what the code tests) and [now < expiry - REFRESH_BUFFER],
    [get_oidc_token] returns the cached token; the provider is unchanged and
    the only event of the call is the reading of the clock, so no request
    is made. *)
Theorem cached_token_is_reused self w expires :
  let now := clock env (trace w) in
  truthy (_oidc_token self) = true →
  _oidc_expires self = Some expires →
  (now < expires - REFRESH_BUFFER)%Z →
  get_oidc_token lib env (self, w)
  = (inr (_oidc_token self), (self, emit (EvNow now) w)).
Proof.
  intros now Ht He Hlt. apply get_oidc_token_hit.
  unfold token_cache_valid. rewrite Ht, He. simpl. by apply Z.ltb_lt.
Qed.



End TokenCache.

(** ** The credential cache *)

Section CredentialCache.

Context (lib : PyLib) (env : Env).

(** C4. When cached credentials exist and
    [now < expiration - REFRESH_BUFFER], [get_aws_credentials] returns them;
    the provider, which holds the token cache, is unchanged and the only
    event is one reading of the clock: neither a token request nor the
    clock reading that opens [get_oidc_token] occurs. *)
Theorem cached_credentials_skip_token_path
    (self : OidcCredentialProvider) (w : World) (creds : CachedCredentials) :
  let now := clock env (trace w) in
  _aws_creds self = Some creds →
  (now < expiration creds - REFRESH_BUFFER)%Z →
  get_aws_credentials lib env (self, w)
  = (inr creds, (self, emit (EvNow now) w)).
Proof.
  intros now Hc Hlt. unfold get_aws_credentials, datetime_now.
  unfold_monad. simpl. rewrite Hc.
  apply Z.ltb_lt in Hlt. fold now. by rewrite Hlt.
Qed.

End CredentialCache.

(** ** Reasoning about runs *)

Section Runs.

Context {S : Type}.

Lemma bind_inv {A B} (m : M S A) (f : A → M S B) s r s' :
  (m ≫= f) s = (r, s') →
  (∃ e, m s = (inl e, s') ∧ r = inl e) ∨
  (∃ a s1, m s = (inr a, s1) ∧ f a s1 = (r, s')).
Proof.
  unfold mbind, M_bind. destruct (m s) as [[e|a] s1]; intros H.
  - left. exists e. by simplify_eq.
  - right. by exists a, s1.
Qed.

Lemma bind_inr {A B} (m : M S A) (f : A → M S B) s a s1 :
  m s = (inr a, s1) → (m ≫= f) s = f a s1.
Proof. unfold mbind, M_bind. by intros ->. Qed.

Lemma bind_inl {A B} (m : M S A) (f : A → M S B) s e s1 :
  m s = (inl e, s1) → (m ≫= f) s = (inl e, s1).
Proof. unfold mbind, M_bind. by intros ->. Qed.

Lemma safe_ret {A} (a : A) : safe (mret a : M S A).
Proof. unfold safe, mret, M_ret. intros. simplify_eq. Qed.

Lemma safe_bind {A B} (m : M S A) (f : A → M S B) :
  safe m → (∀ a, safe (f a)) → safe (m ≫= f).
Proof.
  intros Hm Hf s e s' [(e' & H & ?)|(a & s1 & H & Hfa)]%bind_inv.
  - simplify_eq. eauto.
  - eapply Hf; eauto.
Qed.

Lemma safe_raise {A} e : is_Exception e = true → safe (raise e : M S A).
Proof. unfold safe, raise. intros. by simplify_eq. Qed.

Lemma safe_lift {A} (r : exn + A) : safe_result r → safe (lift r : M S A).
Proof. unfold safe, lift, safe_result. intros. simplify_eq. eauto. Qed.

(** [try ... except Exception] around a safe body never raises. *)
Lemma try_except_safe (body : M S unit) s :
  safe body → ∃ s', try_except_Exception body s = (inr (), s') ∧
                    ∃ r, body s = (r, s').
Proof.
  intros Hs. unfold try_except_Exception.
  destruct (body s) as [[e|[]] s'] eqn:Hb.
  - rewrite (Hs _ _ _ Hb). eauto.
  - eauto.
Qed.

End Runs.

Create HintDb safe.
#[local] Hint Resolve safe_ret safe_bind safe_raise safe_lift : safe.

Section Safety.

Context (lib : PyLib) (env : Env).

Lemma safe_io {A} (m : IO A) : safe m → safe (io m).
Proof.
  unfold safe, io. intros Hm [self w] e [self' w'] H. simpl in H.
  destruct (m w) as [r w1] eqn:Hw. simplify_eq. eauto.
Qed.

Lemma safe_get_self : safe get_self.
Proof. unfold safe, get_self. intros. simplify_eq. Qed.

Lemma safe_set_oidc_token v : safe (set_oidc_token v).
Proof. unfold safe, set_oidc_token. intros. simplify_eq. Qed.

Lemma safe_set_oidc_expires v : safe (set_oidc_expires v).
Proof. unfold safe, set_oidc_expires. intros. simplify_eq. Qed.

Lemma safe_set_aws_creds v : safe (set_aws_creds v).
Proof. unfold safe, set_aws_creds. intros. simplify_eq. Qed.

Ltac effect_safe :=
  unfold safe; unfold_effects; intros; repeat case_match; by simplify_eq/=.

Lemma safe_datetime_now : safe (datetime_now env).
Proof. effect_safe. Qed.

Lemma safe_requests_post req : safe (requests_post env req).
Proof. effect_safe. Qed.

Lemma safe_assume_role req : safe (assume_role_with_web_identity env req).
Proof. effect_safe. Qed.

Lemma safe_mkdir p : safe (mkdir env p).
Proof. effect_safe. Qed.

Lemma safe_write_text p content : safe (write_text env p content).
Proof. effect_safe. Qed.

Lemma safe_rename src dst : safe (rename env src dst).
Proof. effect_safe. Qed.

Lemma safe_print line : safe (print line).
Proof. effect_safe. Qed.

Lemma safe_sleep seconds : safe (sleep seconds).
Proof. effect_safe. Qed.

Ltac result_safe f :=
  unfold safe_result, f; intros; repeat case_match; by simplify_eq/=.

Lemma safe_raise_for_status status : safe_result (raise_for_status status).
Proof. result_safe raise_for_status. Qed.

Lemma safe_response_json decoded : safe_result (response_json decoded).
Proof. result_safe response_json. Qed.

Lemma safe_py_in k j : safe_result (py_in k j).
Proof. result_safe py_in. Qed.

Lemma safe_py_getitem j k : safe_result (py_getitem j k).
Proof. result_safe py_getitem. Qed.

Lemma safe_py_get j k d : safe_result (py_get j k d).
Proof. result_safe py_get. Qed.

Lemma safe_py_timedelta_seconds j : safe_result (py_timedelta_seconds j).
Proof. result_safe py_timedelta_seconds. Qed.

Lemma safe_py_replace_Z j : safe_result (py_replace_Z j).
Proof. result_safe py_replace_Z. Qed.

Lemma safe_py_fromisoformat s : safe_result (py_fromisoformat lib s).
Proof. result_safe py_fromisoformat. Qed.

Lemma safe_with_suffix p suffix : safe_result (with_suffix p suffix).
Proof. result_safe with_suffix. Qed.

Hint Resolve safe_io safe_get_self safe_set_oidc_token safe_set_oidc_expires
  safe_set_aws_creds safe_datetime_now safe_requests_post safe_assume_role
  safe_mkdir safe_write_text safe_rename safe_print safe_sleep
  safe_raise_for_status safe_response_json safe_py_in safe_py_getitem
  safe_py_get safe_py_timedelta_seconds safe_py_replace_Z
  safe_py_fromisoformat safe_with_suffix : safe.

(** Splits a computation along its binds and branches. *)
Ltac safe_steps :=
  repeat first
    [ progress (eauto 3 with safe)
    | apply safe_bind; [|intros ?]
    | match goal with |- safe (let '(_, _) := ?p in _) => destruct p end
    | match goal with |- safe (if ?b then _ else _) => destruct b end
    | match goal with |- safe (match ?x with _ => _ end) => destruct x end ].

Lemma safe_get_auth0_token now : safe (_get_auth0_token lib env now).
Proof. unfold _get_auth0_token. safe_steps. Qed.

Lemma safe_get_cognito_token now : safe (_get_cognito_token lib env now).
Proof. unfold _get_cognito_token. safe_steps. Qed.

Hint Resolve safe_get_auth0_token safe_get_cognito_token : safe.

Lemma safe_get_oidc_token : safe (get_oidc_token lib env).
Proof. unfold get_oidc_token. safe_steps. Qed.

Hint Resolve safe_get_oidc_token : safe.

Lemma safe_get_aws_credentials : safe (get_aws_credentials lib env).
Proof.
  unfold get_aws_credentials, _get_aws_credentials_auth0,
    _get_aws_credentials_cognito.
  safe_steps.
Qed.

Lemma safe_atomic_write p content : safe (_atomic_write env p content).
Proof. unfold _atomic_write. safe_steps. Qed.

Hint Resolve safe_get_aws_credentials safe_atomic_write : safe.

Lemma safe_credential_refresh creds_path :
  safe (credential_refresh lib env creds_path).
Proof. unfold credential_refresh. safe_steps. Qed.

End Safety.

(** ** What a run adds to the trace *)

Section Traces.

Context (lib : PyLib) (env : Env).

Lemma extends_refl P w : extends P w w.
Proof. exists []. by rewrite app_nil_r. Qed.

Lemma extends_trans P w1 w2 w3 :
  extends P w1 w2 → extends P w2 w3 → extends P w1 w3.
Proof.
  intros (evs1 & H1 & F1) (evs2 & H2 & F2). exists (evs1 ++ evs2)%list.
  rewrite H2, H1, app_assoc. split; [done|].
  rewrite forallb_app. by rewrite F1, F2.
Qed.

Lemma extends_emit (P : event → bool) ev w : P ev = true → extends P w (emit ev w).
Proof. intros H. exists [ev]. simpl. by rewrite H. Qed.

Lemma extends_weaken (P Q : event → bool) w w' :
  (∀ ev, P ev = true → Q ev = true) → extends P w w' → extends Q w w'.
Proof.
  intros HPQ (evs & H & F). exists evs. split; [done|].
  rewrite forallb_forall in *. eauto.
Qed.

Lemma extends_added P w w' : extends P w w' → forallb P (added w w') = true.
Proof. intros (evs & H & F). by rewrite (added_app _ _ _ H). Qed.

Global Instance exchanged_preorder : PreOrder exchanged.
Proof.
  split.
  - intros w. split; [apply extends_refl|done].
  - intros w1 w2 w3 [E1 F1] [E2 F2]. split.
    + eapply extends_trans; eauto.
    + congruence.
Qed.

Global Instance unslept_preorder : PreOrder unslept.
Proof.
  split.
  - intros w. apply extends_refl.
  - intros w1 w2 w3. apply extends_trans.
Qed.

Lemma exchanged_unslept w w' : exchanged w w' → unslept w w'.
Proof.
  intros [E _]. eapply extends_weaken; [|exact E]. by intros [].
Qed.

Section Rules.

Context (R : World → World → Prop) `{!PreOrder R}.

Lemma io_sat_ret {A} (a : A) : io_sat R (mret a).
Proof. unfold io_sat, mret, M_ret. intros. by simplify_eq. Qed.

Lemma io_sat_lift {A} (r : exn + A) : io_sat R (lift r).
Proof. unfold io_sat, lift. intros. by simplify_eq. Qed.

Lemma io_sat_bind {A B} (m : IO A) (f : A → IO B) :
  io_sat R m → (∀ a, io_sat R (f a)) → io_sat R (m ≫= f).
Proof.
  intros Hm Hf w r w' [(e & H & ?)|(a & w1 & H & Hfa)]%bind_inv.
  - eauto.
  - etrans; [eapply Hm|eapply Hf]; eauto.
Qed.

Lemma sat_ret {A} (a : A) : sat R (mret a).
Proof. unfold sat, mret, M_ret. intros. by simplify_eq. Qed.

Lemma sat_lift {A} (r : exn + A) : sat R (lift r).
Proof. unfold sat, lift. intros. by simplify_eq. Qed.

Lemma sat_raise {A} e : sat R (raise e : Prov A).
Proof. unfold sat, raise. intros. by simplify_eq. Qed.

Lemma sat_bind {A B} (m : Prov A) (f : A → Prov B) :
  sat R m → (∀ a, sat R (f a)) → sat R (m ≫= f).
Proof.
  intros Hm Hf self w r self' w' [(e & H & ?)|(a & [s1 w1] & H & Hfa)]%bind_inv.
  - eauto.
  - etrans; [eapply Hm|eapply Hf]; eauto.
Qed.

Lemma sat_io {A} (m : IO A) : io_sat R m → sat R (io m).
Proof.
  unfold sat, io_sat, io. intros Hm self w r self' w' H. simpl in H.
  destruct (m w) as [r1 w1] eqn:Hw. simplify_eq. eauto.
Qed.

Lemma sat_get_self : sat R get_self.
Proof. unfold sat, get_self. intros. by simplify_eq. Qed.

Lemma sat_set_oidc_token v : sat R (set_oidc_token v).
Proof. unfold sat, set_oidc_token. intros. by simplify_eq. Qed.

Lemma sat_set_oidc_expires v : sat R (set_oidc_expires v).
Proof. unfold sat, set_oidc_expires. intros. by simplify_eq. Qed.

Lemma sat_set_aws_creds v : sat R (set_aws_creds v).
Proof. unfold sat, set_aws_creds. intros. by simplify_eq. Qed.

Lemma sat_try (body : Prov unit) :
  sat R body → sat R (try_except_Exception body).
Proof.
  unfold sat, try_except_Exception. intros Hb self w r self' w' H.
  destruct (body (self, w)) as [[e|[]] [s1 w1]] eqn:Hbody.
  - destruct (is_Exception e); simplify_eq; eauto.
  - simplify_eq. eauto.
Qed.

End Rules.

Lemma sat_weaken (R R' : World → World → Prop) {A} (m : Prov A) :
  (∀ w w', R w w' → R' w w') → sat R m → sat R' m.
Proof. unfold sat. eauto. Qed.

Lemma exchanged_emit ev w :
  is_exchange_event ev = true → exchanged w (emit ev w).
Proof. intros H. split; [by apply extends_emit|done]. Qed.

Lemma exchanged_datetime_now : io_sat exchanged (datetime_now env).
Proof.
  unfold io_sat, datetime_now. intros. simplify_eq. by apply exchanged_emit.
Qed.

Lemma exchanged_requests_post req : io_sat exchanged (requests_post env req).
Proof.
  unfold io_sat, requests_post. intros.
  case_match; simplify_eq; by apply exchanged_emit.
Qed.

Lemma exchanged_assume_role req :
  io_sat exchanged (assume_role_with_web_identity env req).
Proof.
  unfold io_sat, assume_role_with_web_identity. intros.
  case_match; simplify_eq; by apply exchanged_emit.
Qed.

Lemma unslept_write_text p content : io_sat unslept (write_text env p content).
Proof.
  unfold io_sat, write_text. intros.
  case_match; simplify_eq; by exists [EvWriteText p content].
Qed.

Lemma unslept_rename src dst : io_sat unslept (rename env src dst).
Proof.
  unfold io_sat, rename. intros.
  repeat case_match; simplify_eq; by exists [EvRename src dst].
Qed.

End Traces.

Create HintDb trace.
#[local] Hint Resolve io_sat_ret io_sat_lift io_sat_bind sat_ret sat_lift
  sat_raise sat_bind sat_io sat_get_self sat_set_oidc_token
  sat_set_oidc_expires sat_set_aws_creds exchanged_datetime_now
  exchanged_requests_post exchanged_assume_role unslept_write_text
  unslept_rename : trace.

Ltac sat_steps :=
  repeat first
    [ progress (eauto 3 with trace typeclass_instances)
    | apply sat_bind; [apply _| |intros ?]
    | apply io_sat_bind; [apply _| |intros ?]
    | apply sat_io; [apply _|]
    | match goal with |- sat _ (let '(_, _) := ?p in _) => destruct p end
    | match goal with |- sat _ (if ?b then _ else _) => destruct b end
    | match goal with |- sat _ (match ?x with _ => _ end) => destruct x end ].

Section Exchange.

Context (lib : PyLib) (env : Env).

Lemma exchanged_get_oidc_token : sat exchanged (get_oidc_token lib env).
Proof.
  unfold get_oidc_token, _get_auth0_token, _get_cognito_token. sat_steps.
Qed.

Hint Resolve exchanged_get_oidc_token : trace.

Lemma exchanged_get_aws_credentials :
  sat exchanged (get_aws_credentials lib env).
Proof.
  unfold get_aws_credentials, _get_aws_credentials_auth0,
    _get_aws_credentials_cognito.
  sat_steps.
Qed.

Lemma unslept_atomic_write p content :
  io_sat unslept (_atomic_write env p content).
Proof. unfold _atomic_write. sat_steps. Qed.

Lemma unslept_datetime_now : io_sat unslept (datetime_now env).
Proof.
  intros w r w' H. apply exchanged_unslept. by eapply exchanged_datetime_now.
Qed.

Lemma unslept_credential_refresh creds_path :
  sat unslept (credential_refresh lib env creds_path).
Proof.
  unfold credential_refresh.
  apply sat_bind; [apply _| |intros creds].
  { eapply sat_weaken; [apply exchanged_unslept|].
    apply exchanged_get_aws_credentials. }
  pose proof unslept_atomic_write. pose proof unslept_datetime_now.
  sat_steps.
Qed.

(** The token path leaves the configuration and the credential cache of
    the provider alone. *)
Lemma get_oidc_token_keeps self w r self' w' :
  get_oidc_token lib env (self, w) = (r, (self', w')) →
  config self' = config self ∧ _aws_creds self' = _aws_creds self.
Proof.
  unfold get_oidc_token, _get_auth0_token, _get_cognito_token.
  unfold_monad. unfold_effects. simpl. intros H.
  repeat case_match; by simplify_eq/=.
Qed.

End Exchange.

(** ** The vending API *)

Section Vending.

Context (lib : PyLib) (env : Env).

Lemma get_aws_credentials_miss self w :
  creds_cache_valid self (clock env (trace w)) = false →
  get_aws_credentials lib env (self, w)
  = (if String.eqb (idp_type (config self)) "auth0"
     then _get_aws_credentials_auth0 lib env
     else _get_aws_credentials_cognito lib env)
      (self, emit (EvNow (clock env (trace w))) w).
Proof.
  unfold creds_cache_valid, get_aws_credentials, datetime_now.
  unfold_monad. simpl. intros H.
  destruct (_aws_creds self); [|done]. by rewrite H.
Qed.

(** The vending call, once the token is there: a refused status is
    raised as it is, an [error] field of an accepted response is raised as
    a [RuntimeError] that carries its value. *)
Lemma vending_status_refused self w token self1 w1 status decoded e :
  get_oidc_token lib env (self, w) = (inr token, (self1, w1)) →
  http env (trace w1) (vending_request (config self) token)
    = Response status decoded →
  raise_for_status status = inl e →
  _get_aws_credentials_cognito lib env (self, w)
  = (inl e, (self1, emit (EvPost (vending_request (config self) token)) w1)).
Proof.
  intros Htok Hresp He.
  destruct (get_oidc_token_keeps _ _ _ _ _ _ _ Htok) as [Hcfg _].
  unfold _get_aws_credentials_cognito.
  rewrite (bind_inr _ _ _ _ _ Htok).
  unfold_monad. unfold_effects. simpl. rewrite Hcfg, Hresp. simpl.
  by rewrite He.
Qed.

Lemma vending_error_field self w token self1 w1 status kvs err :
  get_oidc_token lib env (self, w) = (inr token, (self1, w1)) →
  http env (trace w1) (vending_request (config self) token)
    = Response status (Some (JObj kvs)) →
  raise_for_status status = inr () →
  assoc "error" kvs = Some err →
  _get_aws_credentials_cognito lib env (self, w)
  = (inl (RuntimeError ("Credential vending API error: "
                        +:+ py_str (repr lib) err)),
     (self1, emit (EvPost (vending_request (config self) token)) w1)).
Proof.
  intros Htok Hresp Hst Herr.
  destruct (get_oidc_token_keeps _ _ _ _ _ _ _ Htok) as [Hcfg _].
  unfold _get_aws_credentials_cognito.
  rewrite (bind_inr _ _ _ _ _ Htok).
  unfold_monad. unfold_effects. simpl. rewrite Hcfg, Hresp. simpl.
  rewrite Hst. simpl. by rewrite Herr.
Qed.

(** A failed exchange inside the daemon's [try] block: the error is caught
    and nothing after [get_aws_credentials] runs. *)
Lemma refresh_fails_quietly creds_path self w e self' w' :
  get_aws_credentials lib env (self, w) = (inl e, (self', w')) →
  try_except_Exception (credential_refresh lib env creds_path) (self, w)
  = (inr (), (self', w')).
Proof.
  intros H. unfold try_except_Exception, credential_refresh.
  rewrite (bind_inl _ _ _ _ _ H).
  by rewrite (safe_get_aws_credentials lib env _ _ _ H).
Qed.

(** C5, as the code has it. On the cognito backend, when the vending
    endpoint answers with a body whose [error] field is [invalid_client],
    [get_aws_credentials] fails: with [HTTPError] when the status is a 4xx
    or 5xx one, and otherwise with the [RuntimeError] that carries
    [invalid_client].  Either way the credential cache is unchanged, and a
    daemon cycle, whatever its interval, writes and renames no file and
    leaves the files as they were. *)
Theorem vending_error_fails_exchange
    self w token self1 w2 status kvs creds_path :
  let now := clock env (trace w) in
  let req := vending_request (config self) token in
  let w3 := emit (EvPost req) w2 in
  let e :=
    if (400 <=? status)%Z && (status <? 600)%Z then HTTPError status
    else RuntimeError "Credential vending API error: invalid_client" in
  idp_type (config self) = "cognito" →
  creds_cache_valid self now = false →
  get_oidc_token lib env (self, emit (EvNow now) w)
    = (inr token, (self1, w2)) →
  http env (trace w2) req = Response status (Some (JObj kvs)) →
  assoc "error" kvs = Some (JStr "invalid_client") →
  get_aws_credentials lib env (self, w) = (inl e, (self1, w3)) ∧
  _aws_creds self1 = _aws_creds self ∧
  ∀ interval, ∃ r w',
    credential_daemon_cycle lib env creds_path interval (self, w)
      = (r, (self1, w')) ∧
    files w' = files w ∧
    forallb (λ ev, negb (is_publish_event ev)) (added w w') = true.
Proof.
  intros now req w3 e Hidp Hmiss Htok Hresp Herr.
  assert (get_aws_credentials lib env (self, w) = (inl e, (self1, w3)))
    as Hfail.
  { rewrite get_aws_credentials_miss by done. rewrite Hidp. simpl.
    subst e. unfold raise_for_status in *.
    destruct ((400 <=? status)%Z && (status <? 600)%Z) eqn:Hst.
    - eapply vending_status_refused; eauto.
      unfold raise_for_status. by rewrite Hst.
    - eapply (vending_error_field _ _ _ _ _ _ _ (JStr "invalid_client"));
        eauto.
      unfold raise_for_status. by rewrite Hst. }
  destruct (get_oidc_token_keeps _ _ _ _ _ _ _ Htok) as [_ Hcreds].
  destruct (exchanged_get_aws_credentials lib env _ _ _ _ _ Hfail)
    as [(evs & Htr & Hevs) Hfiles].
  assert (forallb (λ ev, negb (is_publish_event ev)) evs = true) as Hquiet.
  { rewrite forallb_forall in *. intros ev Hin.
    specialize (Hevs ev Hin). by destruct ev. }
  split; [done|]. split; [done|]. intros interval.
  unfold credential_daemon_cycle.
  rewrite (bind_inr _ _ _ _ _
             (refresh_fails_quietly creds_path _ _ _ _ _ Hfail)).
  unfold io, sleep. simpl. destruct (interval <? 0)%Z.
  - eexists _, _. split; [reflexivity|]. split; [done|].
    by rewrite (added_app _ _ _ Htr).
  - eexists _, _. split; [reflexivity|]. split; [done|].
    erewrite added_app; last first.
    { rewrite emit_trace, Htr, <- app_assoc. reflexivity. }
    rewrite forallb_app, Hquiet. done.
Qed.

End Vending.

(** ** The credential daemon *)

Section Daemon.

Context (lib : PyLib) (env : Env).

Lemma no_sleep_filtered evs :
  forallb (λ ev, negb (is_sleep_event ev)) evs = true →
  filter (λ ev, is_sleep_event ev = true) evs = [].
Proof.
  induction evs as [|ev evs IH]; [done|]. simpl.
  intros [Hev Hevs]%andb_true_iff. rewrite filter_cons.
  destruct (decide (is_sleep_event ev = true)) as [Heq|_]; [|by apply IH].
  by rewrite Heq in Hev.
Qed.

(** One cycle: whatever the refresh returns, the cycle returns normally,
    one sleep later. *)
Lemma cycle_runs creds_path interval self w :
  (0 ≤ interval)%Z →
  ∃ r self1 w1,
    credential_refresh lib env creds_path (self, w) = (r, (self1, w1)) ∧
    unslept w w1 ∧
    credential_daemon_cycle lib env creds_path interval (self, w)
    = (inr (), (self1, emit (EvSleep interval) w1)).
Proof.
  intros Hint.
  destruct (try_except_safe (credential_refresh lib env creds_path)
              (self, w) (safe_credential_refresh lib env creds_path))
    as ([self1 w1] & Htry & r & Hbody).
  exists r, self1, w1. split; [done|]. split.
  - by eapply unslept_credential_refresh.
  - unfold credential_daemon_cycle. rewrite (bind_inr _ _ _ _ _ Htry).
    unfold io, sleep. simpl.
    by rewrite (proj2 (Z.ltb_ge interval 0) Hint).
Qed.

Lemma loop_runs creds_path interval n :
  (0 ≤ interval)%Z →
  ∀ self w, ∃ self' w' evs,
    credential_daemon_loop lib env n creds_path interval (self, w)
    = (inr (), (self', w')) ∧
    trace w' = (trace w ++ evs)%list ∧
    filter (λ ev, is_sleep_event ev = true) evs
    = replicate n (EvSleep interval).
Proof.
  intros Hint. induction n as [|n IH]; intros self w.
  - exists self, w, []. by rewrite app_nil_r.
  - destruct (cycle_runs creds_path interval self w Hint)
      as (r & self1 & w1 & _ & (evs & Htr & Hevs) & Hc).
    destruct (IH self1 (emit (EvSleep interval) w1))
      as (self' & w' & rest & Hloop & Hrest & Hcount).
    exists self', w', (evs ++ EvSleep interval :: rest)%list.
    simpl. rewrite (bind_inr _ _ _ _ _ Hc). split; [done|]. split.
    + rewrite Hrest, emit_trace, Htr. by rewrite <- !app_assoc.
    + rewrite filter_app, (no_sleep_filtered _ Hevs). simpl.
      rewrite filter_cons. simpl. by rewrite Hcount.
Qed.


End Daemon.

(** ** Atomic writes *)

Section AtomicWrite.

Context (env : Env).

(** The three ways [_atomic_write] ends once the temporary path exists. *)
Lemma atomic_write_unfold p content w tmp_path :
  with_suffix p ".tmp" = inr tmp_path →
  _atomic_write env p content w
  = match write_text env tmp_path content w with
    | (inr _, w1) => rename env tmp_path p w1
    | (inl e, w1) => (inl e, w1)
    end.
Proof.
  intros H. unfold _atomic_write. unfold_monad. rewrite H.
  by destruct (write_text env tmp_path content w) as [[e|[]] w1].
Qed.

(** C6, as the code has it. When writing to the temporary path fails,
    [_atomic_write] raises the error after the write attempt alone: no
    rename is made, and a target other than the temporary path keeps what
    it had.  Nothing removes the temporary file: it holds what the failed
    write left there.  When the write succeeds, the rename follows. *)
Theorem failed_write_keeps_target p content w tmp_path :
  with_suffix p ".tmp" = inr tmp_path →
  tmp_path ≠ p →
  fs_write env (trace w) tmp_path content ≠ WriteOk →
  (∃ msg w',
     _atomic_write env p content w = (inl (OSError msg), w') ∧
     added w w' = [EvWriteText tmp_path content] ∧
     files w' !! p = files w !! p ∧
     files w' !! tmp_path
     = match fs_write env (trace w) tmp_path content with
       | WriteFails written _ => Some (String.substring 0 written content)
       | _ => files w !! tmp_path
       end) ∧
  (∀ w0, fs_write env (trace w0) tmp_path content = WriteOk →
         added w0 (_atomic_write env p content w0).2
         = [EvWriteText tmp_path content; EvRename tmp_path p]).
Proof.
  intros Htmp Hne Hfail. split.
  - rewrite (atomic_write_unfold _ _ _ _ Htmp). unfold write_text.
    destruct (fs_write env (trace w) tmp_path content) as [|msg|k msg];
      [done| |]; eexists msg, _; (split; [reflexivity|]); simpl.
    + by rewrite added_emit.
    + split; [by apply added_app|]. split.
      * by rewrite lookup_insert_ne.
      * by rewrite lookup_insert_eq.
  - intros w0 Hok. rewrite (atomic_write_unfold _ _ _ _ Htmp).
    unfold write_text, rename. rewrite Hok. simpl.
    repeat case_match; simpl; apply added_app; simpl;
      by rewrite <- app_assoc.
Qed.

(** A write that went through staged the content at the temporary path
    and renamed it. *)
Lemma atomic_write_done p content w w' :
  _atomic_write env p content w = (inr (), w') →
  ∃ tmp_path, with_suffix p ".tmp" = inr tmp_path ∧
    trace w' = (trace w ++ [EvWriteText tmp_path content;
                            EvRename tmp_path p])%list.
Proof.
  unfold _atomic_write. unfold_monad. unfold lift.
  destruct (with_suffix p ".tmp") as [e|tmp_path]; [done|].
  unfold write_text, rename. intros H. exists tmp_path. split; [done|].
  repeat case_match; simplify_eq/=; by rewrite <- app_assoc.
Qed.

End AtomicWrite.

(** ** Temporary paths *)

Section TemporaryPaths.

Lemma substring_all s : String.substring 0 (String.length s) s = s.
Proof. induction s as [|c s IH]; simpl; [done|]. by rewrite IH. Qed.

Lemma substring_none s k : String.substring k 0 s = "".
Proof. revert k. induction s as [|c s IH]; intros [|k]; simpl; auto. Qed.

Lemma append_empty s : s +:+ "" = s.
Proof.
  induction s as [|c s IH]; [done|].
  change (String c (s +:+ "") = String c s). by rewrite IH.
Qed.

Lemma substring_split s n :
  (n ≤ String.length s)%nat →
  String.substring 0 n s +:+ String.substring n (String.length s - n) s = s.
Proof.
  revert n. induction s as [|c s IH]; intros [|n] Hn; simpl in *; try lia.
  - done.
  - by rewrite substring_all.
  - transitivity
      (String c (String.substring 0 n s
                 +:+ String.substring n (String.length s - n) s));
      [done|]. by rewrite IH by lia.
Qed.

Lemma substring_length s i :
  (i ≤ String.length s)%nat →
  String.length (String.substring i (String.length s - i) s)
  = (String.length s - i)%nat.
Proof.
  revert i. induction s as [|c s IH]; intros [|i] Hi; simpl in *; try lia.
  - by rewrite substring_all.
  - by rewrite IH by lia.
Qed.

Lemma rfind_bound c s i : rfind c s = Some i → (i < String.length s)%nat.
Proof.
  revert i. induction s as [|d s IH]; intros i; simpl; [done|].
  destruct (rfind c s) as [j|].
  - intros [= <-]. specialize (IH j eq_refl). lia.
  - destruct (Ascii.eqb d c); [|done]. intros [= <-]. lia.
Qed.

(** A name is its stem followed by its final suffix. *)
Lemma stem_suffix nm : stem_of nm +:+ suffix_of nm = nm.
Proof.
  assert (String.substring 0 (String.length nm - 0) nm +:+ "" = nm) as Hall.
  { rewrite Nat.sub_0_r, substring_all. apply append_empty. }
  unfold stem_of, suffix_of.
  destruct (rfind "."%char nm) as [i|] eqn:Hi; [|done].
  apply rfind_bound in Hi. destruct ((0 <? i)%nat && _); [|done].
  rewrite substring_length by lia.
  replace (String.length nm - (String.length nm - i))%nat with i by lia.
  apply substring_split. lia.
Qed.

Lemma name_snoc (p : path) nm :
  String.prefix "/" nm = false → name (p ++ [nm])%list = nm.
Proof.
  intros Hnm. unfold name. rewrite last_last, length_app. simpl.
  replace (length p + 1)%nat with (S (length p)) by lia.
  destruct p as [|a p]; simpl; [by rewrite Hnm|].
  by destruct (String.prefix "/" a).
Qed.

(** The temporary path of a file [nm] in a directory [p]. *)
Lemma with_suffix_tmp (p : path) nm :
  String.prefix "/" nm = false → nm ≠ "" →
  with_suffix (p ++ [nm])%list ".tmp"
  = inr (p ++ [stem_of nm +:+ ".tmp"])%list.
Proof.
  intros Hnm Hne. unfold with_suffix. simpl.
  rewrite (name_snoc _ _ Hnm).
  destruct (String.eqb nm "") eqn:E; [by apply String.eqb_eq in E|].
  by rewrite removelast_last.
Qed.

End TemporaryPaths.

Section Staging.

Context (lib : PyLib) (env : Env).

Lemma io_inv {A} (m : IO A) self w r self' w' :
  io m (self, w) = (r, (self', w')) → self' = self ∧ m w = (r, w').
Proof.
  unfold io. simpl. destruct (m w) as [r1 w1]. intros. by simplify_eq.
Qed.

(** A single file name under a directory. *)
Lemma file_in_directory (p : path) nm :
  String.prefix "/" nm = false →
  Path nm = [nm] → truediv p nm = (p ++ [nm])%list.
Proof.
  intros Hnm HP. unfold truediv. rewrite HP. simpl. by rewrite Hnm.
Qed.

Lemma env_file_tmp (creds_path : path) :
  with_suffix (env_file creds_path) ".tmp"
  = inr (truediv creds_path "aws-credentials.tmp").
Proof.
  unfold env_file.
  rewrite !file_in_directory by (by vm_compute).
  by rewrite with_suffix_tmp.
Qed.

Lemma json_file_tmp (creds_path : path) :
  with_suffix (json_file creds_path) ".tmp"
  = inr (truediv creds_path "aws-credentials.tmp").
Proof.
  unfold json_file.
  rewrite !file_in_directory by (by vm_compute).
  by rewrite with_suffix_tmp.
Qed.

(** C10. The temporary path of [_atomic_write] is the target with the
    final suffix of its name replaced by [.tmp]: the write goes to
    [with_suffix p ".tmp"], which keeps the directory and the stem of the
    name.  So [aws-credentials.env] and [aws-credentials.json] have the
    same temporary path, [aws-credentials.tmp], and a cycle whose refresh
    succeeds stages both files through it, one after the other. *)
Theorem temporary_paths_collide (creds_path : path) :
  let tmp_path := truediv creds_path "aws-credentials.tmp" in
  (∀ (p : path) content w,
     name p ≠ "" →
     name p = stem_of (name p) +:+ suffix_of (name p) ∧
     ∃ r w',
       _atomic_write env p content w = (r, w') ∧
       head (added w w')
       = Some (EvWriteText
                 (removelast p ++ [stem_of (name p) +:+ ".tmp"])%list
                 content)) ∧
  with_suffix (env_file creds_path) ".tmp" = inr tmp_path ∧
  with_suffix (json_file creds_path) ".tmp" = inr tmp_path ∧
  (∀ self w self' w',
     credential_refresh lib env creds_path (self, w) = (inr (), (self', w')) →
     ∃ before staged_env staged_json after,
       added w w'
       = (before
          ++ [EvWriteText tmp_path staged_env;
              EvRename tmp_path (env_file creds_path);
              EvWriteText tmp_path staged_json;
              EvRename tmp_path (json_file creds_path)]
          ++ after)%list).
Proof.
  intros tmp_path. split; [|split; [|split]].
  - intros p content w Hname. split; [by rewrite stem_suffix|].
    assert (with_suffix p ".tmp"
            = inr (removelast p ++ [stem_of (name p) +:+ ".tmp"])%list) as Ht.
    { unfold with_suffix. simpl.
      destruct (String.eqb (name p) "") eqn:E; [|done].
      by apply String.eqb_eq in E. }
    rewrite (atomic_write_unfold _ _ _ _ _ Ht).
    unfold write_text, rename.
    repeat case_match; simplify_eq/=; eexists _, _; (split; [done|]).
    all: unfold added; simpl; try rewrite <- app_assoc;
      by rewrite drop_app_length.
  - apply env_file_tmp.
  - apply json_file_tmp.
  - intros self w self' w' H. unfold credential_refresh in H.
    apply bind_inv in H as [(e & _ & [=])|(creds & [s1 w1] & Hc & H)].
    apply bind_inv in H as [(e & _ & [=])|(gen & [s2 w2] & Hnow & H)].
    apply io_inv in Hnow as [-> Hnow].
    apply bind_inv in H as [(e & _ & [=])|(self0 & [s3 w3] & Hself & H)].
    unfold get_self in Hself. simplify_eq/=.
    apply bind_inv in H as [(e & _ & [=])|([] & [s4 w4] & Henv & H)].
    apply io_inv in Henv as [-> Henv].
    apply bind_inv in H as [(e & _ & [=])|([] & [s5 w5] & Hjson & H)].
    apply io_inv in Hjson as [-> Hjson].
    apply bind_inv in H as [(e & _ & [=])|(gen' & [s6 w6] & Hnow' & H)].
    apply io_inv in Hnow' as [-> Hnow'].
    apply io_inv in H as [-> Hsdk].
    destruct (exchanged_get_aws_credentials lib env _ _ _ _ _ Hc)
      as [(evs & Htr & _) _].
    unfold datetime_now in Hnow, Hnow'. simplify_eq.
    apply atomic_write_done in Henv as (t1 & Ht1 & Htr1).
    apply atomic_write_done in Hjson as (t2 & Ht2 & Htr2).
    apply atomic_write_done in Hsdk as (t3 & Ht3 & Htr3).
    rewrite env_file_tmp in Ht1. rewrite json_file_tmp in Ht2.
    simplify_eq.
    eexists (evs ++ [EvNow _])%list, _, _, [EvNow _; _; _].
    apply added_app. rewrite Htr3. simpl. rewrite Htr2, Htr1. simpl.
    rewrite Htr. by rewrite <- !app_assoc.
Qed.

End Staging.

(** ** Delivery *)

Section Delivery.

Context (lib : PyLib) (env : Env).

(** C8. With a cognito configuration the token daemon exits with code 1
    before its loop: [cmd_token_daemon] raises [SystemExit(1)] and [main]
    ends with that code, the provider and the world being as they were, so
    that no token was fetched, no file written and no sleep taken. *)
Theorem token_daemon_rejects_cognito n cfg token_file interval w :
  idp_type cfg = "cognito" →
  (∀ self, config self = cfg →
     cmd_token_daemon lib env n (default default_token_file token_file)
       (default default_token_interval interval) (self, w)
     = (inl (SystemExit 1), (self, w))) ∧
  (∀ environ, from_env environ = inr cfg →
     main lib env n environ (TokenDaemon token_file interval) w
     = (Exited 1, w)).
Proof.
  intros Hidp.
  assert (∀ self, config self = cfg →
     cmd_token_daemon lib env n (default default_token_file token_file)
       (default default_token_interval interval) (self, w)
     = (inl (SystemExit 1), (self, w))) as Hexit.
  { intros self Hself. unfold cmd_token_daemon, get_self. unfold_monad.
    simpl. by rewrite Hself, Hidp. }
  split; [done|]. intros environ Hcfg.
  unfold main. rewrite Hcfg. simpl. by rewrite Hexit.
Qed.

(** The STS exchange, once the token is there. *)
Lemma sts_exchange self w token self1 w1 creds :
  get_oidc_token lib env (self, w) = (inr token, (self1, w1)) →
  sts env (trace w1) (sts_request (config self) token) = StsResponse creds →
  let cached := {| access_key_id := JStr (AccessKeyId creds);
                   secret_access_key := JStr (SecretAccessKey creds);
                   session_token := JStr (SessionToken creds);
                   expiration := Expiration creds |} in
  _get_aws_credentials_auth0 lib env (self, w)
  = (inr cached,
     ({| config := config self1; _oidc_token := _oidc_token self1;
         _oidc_expires := _oidc_expires self1; _aws_creds := Some cached |},
      emit (EvSts (sts_request (config self) token)) w1)).
Proof.
  intros Htok Hsts cached.
  destruct (get_oidc_token_keeps _ _ _ _ _ _ _ Htok) as [Hcfg _].
  unfold _get_aws_credentials_auth0.
  rewrite (bind_inr _ _ _ _ _ Htok).
  unfold_monad. unfold_effects. simpl. rewrite Hcfg, Hsts. simpl.
  by rewrite ?Hcfg.
Qed.

Lemma no_print_filtered evs :
  forallb is_exchange_event evs = true →
  filter (λ ev, is_print_event ev = true) evs = [].
Proof.
  induction evs as [|ev evs IH]; [done|]. simpl.
  intros [Hev Hevs]%andb_true_iff. rewrite filter_cons.
  destruct (decide (is_print_event ev = true)) as [Heq|_]; [|by apply IH].
  by destruct ev.
Qed.


(** The line of C7 as text: Python separates the items by a comma and a
    space, a key from its value by a colon and a space. *)
Lemma credential_process_line (stamp : string) :
  json_dumps None
    (JObj [("Version", JNum 1);
           ("AccessKeyId", JStr "AKIA1");
           ("SecretAccessKey", JStr "s3cr3t");
           ("SessionToken", JStr "tok1");
           ("Expiration", JStr stamp)])
  = "{" +:+ quoted "Version" +:+ ": 1, "
    +:+ quoted "AccessKeyId" +:+ ": " +:+ quoted "AKIA1" +:+ ", "
    +:+ quoted "SecretAccessKey" +:+ ": " +:+ quoted "s3cr3t" +:+ ", "
    +:+ quoted "SessionToken" +:+ ": " +:+ quoted "tok1" +:+ ", "
    +:+ quoted "Expiration" +:+ ": " +:+ encode_basestring_ascii stamp
    +:+ "}".
Proof. by vm_compute. Qed.

End Delivery.

(** * Further properties *)

(** ** Loading the configuration *)

Section Configuration.

Lemma unset_present environ v :
  unset environ v = negb (present (environ !! v)).
Proof.
  unfold unset, present. destruct (environ !! v); [|done].
  by rewrite negb_involutive.
Qed.

Ltac by_settings environ :=
  unfold from_env, config_complete, required_settings, selected_idp,
    auth0_required, cognito_required;
  destruct (String.eqb (lower (default "auth0" (environ !! "IDP_TYPE")))
              "auth0") eqn:Hauth0;
  [|destruct (String.eqb (lower (default "auth0" (environ !! "IDP_TYPE")))
               "cognito") eqn:Hcognito];
  simpl; rewrite ?filter_cons, ?filter_nil;
  repeat match goal with
         | |- context [decide (unset environ ?v = true)] =>
             destruct (unset environ v) eqn:?; simpl
         end.

Lemma from_env_complete environ :
  config_complete environ = true → ∃ cfg, from_env environ = inr cfg.
Proof.
  by_settings environ; intros H; try done; eauto.
  all: destruct (unset environ "AWS_REGION"); simpl in *; try done; eauto.
Qed.

Lemma from_env_incomplete environ :
  config_complete environ = false → ∃ msg, from_env environ = inl (ValueError msg).
Proof.
  by_settings environ; intros H; try done; eauto.
  all: destruct (unset environ "AWS_REGION"); simpl in *; try done; eauto.
Qed.

(** X1. [from_env] returns a configuration exactly when the selected
    identity provider is auth0 or cognito and [AWS_REGION] and the five
    variables of that provider are all set to non-empty values; in every
    other case it raises [ValueError]. *)
Theorem from_env_succeeds_iff environ :
  ((∃ cfg, from_env environ = inr cfg) ↔ config_complete environ = true) ∧
  ((∃ msg, from_env environ = inl (ValueError msg))
   ↔ config_complete environ = false).
Proof.
  split; split.
  - intros [cfg Hcfg]. destruct (config_complete environ) eqn:Hc; [done|].
    destruct (from_env_incomplete _ Hc) as [msg Hmsg]. congruence.
  - apply from_env_complete.
  - intros [msg Hmsg]. destruct (config_complete environ) eqn:Hc; [|done].
    destruct (from_env_complete _ Hc) as [cfg Hcfg]. congruence.
  - apply from_env_incomplete.
Qed.

End Configuration.

Section ConfigurationUse.

Context (lib : PyLib) (env : Env).

Lemma present_set environ v :
  unset environ v = false → present (environ !! v) = true.
Proof. rewrite unset_present. by destruct (present _). Qed.

(** X2. A configuration that [from_env] returns names the selected
    identity provider, has a non-empty region, and holds a non-empty value
    for each of the five settings of that identity provider. *)
Theorem loaded_config_has_settings environ cfg :
  from_env environ = inr cfg →
  idp_type cfg = selected_idp environ ∧
  environ !! "AWS_REGION" = Some (aws_region cfg) ∧
  aws_region cfg ≠ "" ∧
  ((idp_type cfg = "auth0" ∧
    present (auth0_domain cfg) && present (auth0_client_id cfg)
    && present (auth0_client_secret cfg) && present (auth0_audience cfg)
    && present (aws_role_arn cfg) = true) ∨
   (idp_type cfg = "cognito" ∧
    present (cognito_domain cfg) && present (cognito_client_id cfg)
    && present (cognito_client_secret cfg)
    && present (cognito_resource_server cfg)
    && present (cognito_credential_api_url cfg) = true)).
Proof.
  unfold from_env, selected_idp, auth0_required, cognito_required.
  destruct (String.eqb (lower (default "auth0" (environ !! "IDP_TYPE")))
              "auth0") eqn:Hauth0;
  [|destruct (String.eqb (lower (default "auth0" (environ !! "IDP_TYPE")))
               "cognito") eqn:Hcognito; [|done]].
  all: simpl; rewrite ?filter_cons, ?filter_nil.
  all: repeat match goal with
         | |- context [decide (unset ?e ?v = true)] =>
             let H := fresh "Hset" in
             destruct (unset e v) eqn:H; simpl;
             [by destruct (unset e "AWS_REGION")|
              apply present_set in H]
         end.
  all: destruct (unset environ "AWS_REGION") eqn:Hregion; [done|].
  all: intros [= <-]; simpl.
  all: unfold unset in Hregion;
    destruct (environ !! "AWS_REGION") as [region|] eqn:Hr; [|done].
  all: simpl; split; [done|]; split; [done|]; split;
    [intros ->; by simpl in Hregion|].
  - left. split; [by apply String.eqb_eq|].
    by repeat (apply andb_true_iff; split).
  - right. split; [by apply String.eqb_eq|].
    by repeat (apply andb_true_iff; split).
Qed.

(** X3. With an incomplete configuration every command ends with exit
    code 1 and the world as it was: nothing is requested, written or
    printed before the configuration is complete. *)
Theorem incomplete_config_exits_before_effects n environ cmd w :
  config_complete environ = false →
  main lib env n environ cmd w = (Exited 1, w).
Proof.
  intros [msg Hmsg]%from_env_incomplete. unfold main. by rewrite Hmsg.
Qed.

End ConfigurationUse.
(** ** The lifetime of a cached token *)

Section TokenLifetime.

Context (lib : PyLib) (env : Env).

(** A call on an invalid cache makes one request, whatever it returns. *)
Lemma get_oidc_token_posts (env0 : Env) self w :
  token_cache_valid self (clock env0 (trace w)) = false →
  ∃ r self' w',
    get_oidc_token lib env0 (self, w) = (r, (self', w')) ∧
    added w w' = [EvNow (clock env0 (trace w));
                  EvPost (token_request lib (config self))].
Proof.
  intros Hmiss. rewrite get_oidc_token_miss by done.
  destruct (fetch lib env0 self (clock env0 (trace w))
              (self, emit (EvNow (clock env0 (trace w))) w))
    as [r [self' w']] eqn:Hf.
  exists r, self', w'. split; [done|].
  apply fetch_posts_once in Hf as ->.
  apply added_app. rewrite !emit_trace. by rewrite <- app_assoc.
Qed.

(** X4. A token that [get_oidc_token] fetched at [now] is stored with an
    expiry [now + ttl]; if it is a true value, every later call made before
    [now + ttl - REFRESH_BUFFER] returns it with no request, and every call
    made from that instant on makes a new request. *)
Theorem fetched_token_reuse_window self w token self' w' :
  let now := clock env (trace w) in
  token_cache_valid self now = false →
  get_oidc_token lib env (self, w) = (inr token, (self', w')) →
  truthy token = true →
  ∃ ttl,
    self' = with_token self token (now + ttl) ∧
    ∀ (env2 : Env) (w2 : World),
      let now2 := clock env2 (trace w2) in
      ((now2 < now + ttl - REFRESH_BUFFER)%Z →
       get_oidc_token lib env2 (self', w2)
       = (inr token, (self', emit (EvNow now2) w2))) ∧
      ((now + ttl - REFRESH_BUFFER ≤ now2)%Z →
       ∃ r self2 w2',
         get_oidc_token lib env2 (self', w2) = (r, (self2, w2')) ∧
         added w2 w2' = [EvNow now2; EvPost (token_request lib (config self))]).
Proof.
  intros now Hmiss Hget Htrue.
  rewrite get_oidc_token_miss in Hget by done.
  apply fetch_success in Hget as (status & result & ttl & _ & _ & _ & _ & ->).
  exists ttl. split; [done|]. intros env2 w2 now2. split.
  - intros Hlt.
    rewrite get_oidc_token_hit; [done|].
    unfold token_cache_valid. simpl. rewrite Htrue. simpl.
    by apply Z.ltb_lt.
  - intros Hge.
    apply (get_oidc_token_posts env2 (with_token self token (now + ttl)) w2).
    unfold token_cache_valid. simpl. rewrite Htrue. simpl.
    by apply Z.ltb_ge.
Qed.


(** X6. A token that is not a true value (an empty string, [null], zero)
    is accepted, stored and returned by the call that fetched it, yet the
    cache never serves it: every later call makes a new request, at
    whatever time. *)
Theorem empty_token_is_never_reused self w token self' w' :
  token_cache_valid self (clock env (trace w)) = false →
  get_oidc_token lib env (self, w) = (inr token, (self', w')) →
  truthy token = false →
  _oidc_token self' = token ∧
  ∀ (env2 : Env) (w2 : World),
    ∃ r self2 w2',
      get_oidc_token lib env2 (self', w2) = (r, (self2, w2')) ∧
      added w2 w2' = [EvNow (clock env2 (trace w2));
                      EvPost (token_request lib (config self))].
Proof.
  intros Hmiss Hget Hfalse.
  rewrite get_oidc_token_miss in Hget by done.
  apply fetch_success in Hget as (status & result & ttl & _ & _ & _ & _ & ->).
  split; [done|]. intros env2 w2.
  apply (get_oidc_token_posts env2
           (with_token self token (clock env (trace w) + ttl)) w2).
  unfold token_cache_valid. simpl. by rewrite Hfalse.
Qed.

End TokenLifetime.
(** ** The credential cache and the two exchanges *)

Section CredentialExchange.

Context (lib : PyLib).

Implicit Types (env : Env) (self : OidcCredentialProvider) (w : World).

Lemma get_aws_credentials_hit env self w creds :
  _aws_creds self = Some creds →
  (clock env (trace w) < expiration creds - REFRESH_BUFFER)%Z →
  get_aws_credentials lib env (self, w)
  = (inr creds, (self, emit (EvNow (clock env (trace w))) w)).
Proof.
  intros Hc Hlt. unfold get_aws_credentials, datetime_now.
  unfold_monad. simpl. rewrite Hc. by rewrite (proj2 (Z.ltb_lt _ _) Hlt).
Qed.

Lemma auth0_exchange_outcome env self w r self' w' :
  _get_aws_credentials_auth0 lib env (self, w) = (r, (self', w')) →
  exchange_outcome self r self'.
Proof.
  unfold _get_aws_credentials_auth0.
  intros [(e & H & ->)|(token & [s1 w1] & H & Hrest)]%bind_inv;
    apply get_oidc_token_keeps in H as [Hcfg Hcreds]; [done|].
  revert Hrest. unfold_monad. unfold_effects. simpl. intros Hrest.
  repeat case_match; simplify_eq/=; by split.
Qed.

Lemma cognito_exchange_outcome env self w r self' w' :
  _get_aws_credentials_cognito lib env (self, w) = (r, (self', w')) →
  exchange_outcome self r self'.
Proof.
  unfold _get_aws_credentials_cognito.
  intros [(e & H & ->)|(token & [s1 w1] & H & Hrest)]%bind_inv;
    apply get_oidc_token_keeps in H as [Hcfg Hcreds]; [done|].
  revert Hrest. unfold_monad. unfold_effects. simpl. intros Hrest.
  repeat case_match; simplify_eq/=; by split.
Qed.

Lemma get_aws_credentials_outcome env self w r self' w' :
  get_aws_credentials lib env (self, w) = (r, (self', w')) →
  exchange_outcome self r self'.
Proof.
  destruct (creds_cache_valid self (clock env (trace w))) eqn:Hv.
  - unfold creds_cache_valid in Hv.
    destruct (_aws_creds self) as [creds|] eqn:Hc; [|done].
    rewrite (get_aws_credentials_hit _ _ _ _ Hc) by by apply Z.ltb_lt.
    intros. simplify_eq. by split.
  - rewrite get_aws_credentials_miss by done.
    destruct (String.eqb _ _).
    + apply auth0_exchange_outcome.
    + apply cognito_exchange_outcome.
Qed.

(** X7. [get_aws_credentials] never changes the configuration of the
    provider; when it fails, on either backend and with whatever error, the
    credential cache is what it was, and when it returns credentials, those
    are the credentials the cache holds afterwards. *)
Theorem exchange_writes_cache_only_on_success env self w r self' w' :
  get_aws_credentials lib env (self, w) = (r, (self', w')) →
  config self' = config self ∧
  (∀ e, r = inl e → _aws_creds self' = _aws_creds self) ∧
  (∀ creds, r = inr creds → _aws_creds self' = Some creds).
Proof.
  intros [Hcfg Hr]%get_aws_credentials_outcome.
  split; [done|]. split; intros ? ->; done.
Qed.


(** X9. On the auth0 backend, when the token was obtained and the STS call
    raises, [get_aws_credentials] raises [ClientError]; the provider keeps
    the token, so that a retry made while the token is valid (and the
    credential cache still is not) goes to STS without a request to the
    identity provider. *)
Theorem sts_failure_keeps_token env self w token self1 w1 msg :
  let now := clock env (trace w) in
  idp_type (config self) = "auth0" →
  creds_cache_valid self now = false →
  get_oidc_token lib env (self, emit (EvNow now) w)
    = (inr token, (self1, w1)) →
  sts env (trace w1) (sts_request (config self) token) = StsRaises msg →
  get_aws_credentials lib env (self, w)
  = (inl (ClientError msg),
     (self1, emit (EvSts (sts_request (config self) token)) w1)) ∧
  ∀ (env2 : Env) (w2 : World),
    creds_cache_valid self (clock env2 (trace w2)) = false →
    token_cache_valid self1
      (clock env2 (trace (emit (EvNow (clock env2 (trace w2))) w2))) = true →
    ∃ r self2 w2',
      get_aws_credentials lib env2 (self1, w2) = (r, (self2, w2')) ∧
      added w2 w2'
      = [EvNow (clock env2 (trace w2));
         EvNow (clock env2 (trace (emit (EvNow (clock env2 (trace w2))) w2)));
         EvSts (sts_request (config self) (_oidc_token self1))].
Proof.
  intros now Hidp Hmiss Htok Hsts.
  destruct (get_oidc_token_keeps _ _ _ _ _ _ _ Htok) as [Hcfg Hcreds].
  split.
  - rewrite get_aws_credentials_miss by done. rewrite Hidp. simpl.
    unfold _get_aws_credentials_auth0. rewrite (bind_inr _ _ _ _ _ Htok).
    unfold_monad. unfold_effects. simpl. by rewrite Hcfg, Hsts.
  - intros env2 w2 Hstale Hvalid.
    assert (creds_cache_valid self1 (clock env2 (trace w2)) = false) as Hm.
    { unfold creds_cache_valid in *. by rewrite Hcreds. }
    rewrite get_aws_credentials_miss by done. rewrite Hcfg, Hidp. simpl.
    unfold _get_aws_credentials_auth0.
    rewrite (bind_inr _ _ _ _ _ (get_oidc_token_hit lib env2 _ _ Hvalid)).
    unfold_monad. unfold_effects. simpl. rewrite Hcfg.
    destruct (sts env2 _ _); eexists _, _, _; (split; [reflexivity|]).
    all: apply added_app; simpl; by rewrite <- !app_assoc.
Qed.

Lemma str_contains_Z_cons c s :
  str_contains "Z" (String c s) = false →
  c ≠ "Z"%char ∧ str_contains "Z" s = false.
Proof.
  change (str_contains "Z" (String c s))
    with (String.prefix "Z" (String c s) || str_contains "Z" s).
  intros [H1 H2]%orb_false_iff. split; [|done]. intros ->.
  assert (String.prefix "Z" (String "Z" s) = true) as H.
  { apply String.prefix_correct.
    change (String "Z" (String.substring 0 0 s) = "Z").
    by rewrite substring_none. }
  congruence.
Qed.

Lemma replace_Z_without s : str_contains "Z" s = false → replace_Z s = s.
Proof.
  induction s as [|c s IH]; [done|].
  intros [Hc Hs]%str_contains_Z_cons.
  change (replace_Z (String c s))
    with (if Ascii.eqb c "Z" then "+00:00" +:+ replace_Z s
          else String c (replace_Z s)).
  destruct (Ascii.eqb c "Z") eqn:E; [by apply Ascii.eqb_eq in E|].
  by rewrite IH.
Qed.

Lemma replace_Z_app s t : replace_Z (s +:+ t) = replace_Z s +:+ replace_Z t.
Proof.
  induction s as [|c s IH]; [done|].
  change (String c s +:+ t) with (String c (s +:+ t)). simpl.
  rewrite IH. by destruct (Ascii.eqb c "Z").
Qed.

Lemma replace_Z_utc stamp :
  str_contains "Z" stamp = false →
  replace_Z (stamp +:+ "Z") = stamp +:+ "+00:00" ∧
  replace_Z (stamp +:+ "+00:00") = stamp +:+ "+00:00".
Proof.
  intros H. rewrite !replace_Z_app, (replace_Z_without _ H). by split.
Qed.

(** Runs the vending call up to the reading of the body. *)
Ltac vending_run Htok Hresp Hst :=
  let Hcfg := fresh "Hcfg" in
  destruct (get_oidc_token_keeps _ _ _ _ _ _ _ Htok) as [Hcfg _];
  unfold _get_aws_credentials_cognito;
  rewrite (bind_inr _ _ _ _ _ Htok);
  unfold_monad; unfold_effects; simpl;
  rewrite Hcfg, Hresp; simpl; rewrite Hst; simpl.

Lemma vending_success env self w token self1 w1 status kvs ckvs
    text expiry akid secret session :
  get_oidc_token lib env (self, w) = (inr token, (self1, w1)) →
  http env (trace w1) (vending_request (config self) token)
    = Response status (Some (JObj kvs)) →
  raise_for_status status = inr () →
  assoc "error" kvs = None →
  assoc "credentials" kvs = Some (JObj ckvs) →
  assoc "expiration" ckvs = Some (JStr text) →
  fromisoformat lib (replace_Z text) = Some expiry →
  assoc "access_key_id" ckvs = Some akid →
  assoc "secret_access_key" ckvs = Some secret →
  assoc "session_token" ckvs = Some session →
  let cached := {| access_key_id := akid; secret_access_key := secret;
                   session_token := session; expiration := expiry |} in
  _get_aws_credentials_cognito lib env (self, w)
  = (inr cached,
     (with_creds_of self1 cached,
      emit (EvPost (vending_request (config self) token)) w1)).
Proof.
  intros Htok Hresp Hst Herr Hc Hexp Hiso Ha Hs Ht cached.
  vending_run Htok Hresp Hst.
  rewrite Herr, Hc. simpl. rewrite Hexp. simpl.
  unfold py_fromisoformat. rewrite Hiso. simpl.
  by rewrite Ha, Hs, Ht.
Qed.

(** X10. On the cognito backend, when the token was obtained and the
    vending endpoint answers, with an accepted status, a body without
    [error] whose [credentials] hold an expiration text and the three key
    fields, [get_aws_credentials] returns and caches exactly those three
    values, with the instant [fromisoformat] reads from the text once each
    [Z] in it was replaced by [+00:00]. *)
Theorem vending_credentials_are_cached env self w token self1 w1 status
    kvs ckvs text expiry akid secret session :
  let now := clock env (trace w) in
  let req := vending_request (config self) token in
  let cached := {| access_key_id := akid; secret_access_key := secret;
                   session_token := session; expiration := expiry |} in
  idp_type (config self) = "cognito" →
  creds_cache_valid self now = false →
  get_oidc_token lib env (self, emit (EvNow now) w)
    = (inr token, (self1, w1)) →
  http env (trace w1) req = Response status (Some (JObj kvs)) →
  raise_for_status status = inr () →
  assoc "error" kvs = None →
  assoc "credentials" kvs = Some (JObj ckvs) →
  assoc "expiration" ckvs = Some (JStr text) →
  fromisoformat lib (replace_Z text) = Some expiry →
  assoc "access_key_id" ckvs = Some akid →
  assoc "secret_access_key" ckvs = Some secret →
  assoc "session_token" ckvs = Some session →
  get_aws_credentials lib env (self, w)
  = (inr cached, (with_creds_of self1 cached, emit (EvPost req) w1)).
Proof.
  intros now req cached Hidp Hmiss Htok Hresp Hst Herr Hc Hexp Hiso Ha Hs Ht.
  rewrite get_aws_credentials_miss by done. rewrite Hidp. simpl.
  by eapply vending_success.
Qed.

(** X11. An expiration text that ends in the UTC marker [Z] (and holds no
    other [Z]) is read as the same text ending in [+00:00]: the vended
    credentials get the instant [fromisoformat] gives for that text, and an
    expiration written with [+00:00] in the first place gives the same. *)
Theorem utc_marker_is_normalised env self w token self1 w1 status
    kvs ckvs stamp marker expiry akid secret session :
  let req := vending_request (config self) token in
  let cached := {| access_key_id := akid; secret_access_key := secret;
                   session_token := session; expiration := expiry |} in
  marker = "Z" ∨ marker = "+00:00" →
  str_contains "Z" stamp = false →
  fromisoformat lib (stamp +:+ "+00:00") = Some expiry →
  get_oidc_token lib env (self, w) = (inr token, (self1, w1)) →
  http env (trace w1) req = Response status (Some (JObj kvs)) →
  raise_for_status status = inr () →
  assoc "error" kvs = None →
  assoc "credentials" kvs = Some (JObj ckvs) →
  assoc "expiration" ckvs = Some (JStr (stamp +:+ marker)) →
  assoc "access_key_id" ckvs = Some akid →
  assoc "secret_access_key" ckvs = Some secret →
  assoc "session_token" ckvs = Some session →
  _get_aws_credentials_cognito lib env (self, w)
  = (inr cached, (with_creds_of self1 cached, emit (EvPost req) w1)).
Proof.
  intros req cached Hmarker Hstamp Hiso Htok Hresp Hst Herr Hc Hexp Ha Hs Ht.
  eapply vending_success; eauto.
  destruct (replace_Z_utc _ Hstamp) as [HZ Hplus].
  destruct Hmarker as [-> | ->]; by rewrite ?HZ, ?Hplus.
Qed.

(** X12. An accepted vending response without [error] field fails the
    exchange when it is malformed: without [credentials] with
    [KeyError("credentials")]; with credentials that lack [expiration] with
    [KeyError("expiration")], whatever else they hold; with an expiration
    that is not a string with [AttributeError]; with an expiration text that
    [fromisoformat] refuses with [ValueError]. *)
Theorem malformed_vending_response_fails env self w token self1 w1 status kvs :
  let req := vending_request (config self) token in
  let fails (e : exn) :=
    _get_aws_credentials_cognito lib env (self, w)
    = (inl e, (self1, emit (EvPost req) w1)) in
  get_oidc_token lib env (self, w) = (inr token, (self1, w1)) →
  http env (trace w1) req = Response status (Some (JObj kvs)) →
  raise_for_status status = inr () →
  assoc "error" kvs = None →
  (assoc "credentials" kvs = None → fails (KeyError "credentials")) ∧
  (∀ ckvs, assoc "credentials" kvs = Some (JObj ckvs) →
     (assoc "expiration" ckvs = None → fails (KeyError "expiration")) ∧
     (∀ raw, assoc "expiration" ckvs = Some raw →
        (∀ text, raw ≠ JStr text) → fails AttributeError) ∧
     (∀ text, assoc "expiration" ckvs = Some (JStr text) →
        fromisoformat lib (replace_Z text) = None →
        fails (ValueError "Invalid isoformat string"))).
Proof.
  intros req fails Htok Hresp Hst Herr. subst fails req. split.
  { intros Hc. vending_run Htok Hresp Hst. by rewrite Herr, Hc. }
  intros ckvs Hc. split; [|split].
  - intros Hexp. vending_run Htok Hresp Hst.
    rewrite Herr, Hc. simpl. by rewrite Hexp.
  - intros raw Hexp Hraw. vending_run Htok Hresp Hst.
    rewrite Herr, Hc. simpl. rewrite Hexp. simpl.
    destruct raw; try done. by destruct (Hraw s).
  - intros text Hexp Hiso. vending_run Htok Hresp Hst.
    rewrite Herr, Hc. simpl. rewrite Hexp. simpl.
    unfold py_fromisoformat. by rewrite Hiso.
Qed.

End CredentialExchange.
(** ** What an atomic write leaves on disk *)

Section AtomicWriteFiles.

Context (env : Env).

(** The files after a write that went through. *)
Lemma atomic_write_done_files p content w w' tmp_path :
  with_suffix p ".tmp" = inr tmp_path →
  _atomic_write env p content w = (inr (), w') →
  files w' = <[p := content]> (delete tmp_path (<[tmp_path := content]> (files w))).
Proof.
  intros Htmp. rewrite (atomic_write_unfold _ _ _ _ _ Htmp).
  unfold write_text, rename. intros H.
  repeat case_match; simplify_eq/=.
  rewrite lookup_insert_eq in *. by simplify_eq.
Qed.

(** The files after any run of [_atomic_write] on a target that is not its
    own temporary path: the target is as before or holds the content, and
    no file other than the target and the temporary one changed. *)
Lemma atomic_write_effect p content w r w' tmp_path :
  with_suffix p ".tmp" = inr tmp_path →
  tmp_path ≠ p →
  _atomic_write env p content w = (r, w') →
  (files w' !! p = files w !! p ∨ files w' !! p = Some content) ∧
  ∀ q, q ≠ p → q ≠ tmp_path → files w' !! q = files w !! q.
Proof.
  intros Htmp Hne. rewrite (atomic_write_unfold _ _ _ _ _ Htmp).
  unfold write_text, rename. intros H.
  repeat case_match; simplify_eq/=;
    rewrite ?lookup_insert_eq in *; simplify_eq; split;
    try (intros q Hq1 Hq2);
    rewrite ?lookup_insert_eq, ?lookup_insert_ne, ?lookup_delete_ne,
      ?lookup_insert_ne by done; auto.
Qed.

(** X13. When [_atomic_write] returns normally, the target holds exactly
    the content, the temporary path (if it is not the target itself) no
    longer exists, and every other file is as it was. *)
Theorem atomic_write_publishes p content w w' tmp_path :
  with_suffix p ".tmp" = inr tmp_path →
  _atomic_write env p content w = (inr (), w') →
  files w' !! p = Some content ∧
  (tmp_path ≠ p → files w' !! tmp_path = None) ∧
  (∀ q, q ≠ p → q ≠ tmp_path → files w' !! q = files w !! q).
Proof.
  intros Htmp Hrun.
  rewrite (atomic_write_done_files _ _ _ _ _ Htmp Hrun).
  split; [by rewrite lookup_insert_eq|]. split.
  - intros Hne. rewrite lookup_insert_ne by done. by rewrite lookup_delete_eq.
  - intros q Hq1 Hq2.
    by rewrite lookup_insert_ne, lookup_delete_ne, lookup_insert_ne.
Qed.

(** X14. When the content was written to the temporary path and the rename
    fails, [_atomic_write] raises [OSError], the target keeps what it had,
    and the complete new content stays behind at the temporary path. *)
Theorem failed_rename_keeps_target p content w tmp_path msg :
  with_suffix p ".tmp" = inr tmp_path →
  tmp_path ≠ p →
  fs_write env (trace w) tmp_path content = WriteOk →
  fs_rename env (trace w ++ [EvWriteText tmp_path content])%list tmp_path p
    = FsFails msg →
  ∃ w',
    _atomic_write env p content w = (inl (OSError msg), w') ∧
    added w w' = [EvWriteText tmp_path content; EvRename tmp_path p] ∧
    files w' !! p = files w !! p ∧
    files w' !! tmp_path = Some content.
Proof.
  intros Htmp Hne Hwrite Hrename.
  rewrite (atomic_write_unfold _ _ _ _ _ Htmp).
  unfold write_text, rename. rewrite Hwrite. simpl. rewrite Hrename.
  eexists. split; [reflexivity|]. simpl. split; [|split].
  - apply added_app. simpl. by rewrite <- app_assoc.
  - by rewrite lookup_insert_ne.
  - by rewrite lookup_insert_eq.
Qed.

Lemma path_snoc_name (p : path) :
  name p ≠ "" → (removelast p ++ [name p])%list = p.
Proof.
  unfold name. destruct (length p =? _)%nat eqn:E; [done|]. intros _.
  symmetry. apply app_removelast_last. intros ->. simpl in E. done.
Qed.

(** X15. A target whose name already ends in the suffix [.tmp] is its own
    temporary path: [_atomic_write] writes into the target itself, so a
    write that breaks off leaves the target with the characters written so
    far, and no rename is made. *)
Theorem tmp_named_target_is_written_in_place p content w written msg :
  suffix_of (name p) = ".tmp" →
  fs_write env (trace w) p content = WriteFails written msg →
  with_suffix p ".tmp" = inr p ∧
  ∃ w',
    _atomic_write env p content w = (inl (OSError msg), w') ∧
    added w w' = [EvWriteText p content] ∧
    files w' !! p = Some (String.substring 0 written content).
Proof.
  intros Hsuffix Hwrite.
  assert (name p ≠ "") as Hname.
  { intros Hn. rewrite Hn in Hsuffix. done. }
  assert (with_suffix p ".tmp" = inr p) as Htmp.
  { unfold with_suffix. simpl.
    destruct (String.eqb (name p) "") eqn:E;
      [by apply String.eqb_eq in E|].
    rewrite <- Hsuffix, stem_suffix. by rewrite path_snoc_name. }
  split; [done|].
  rewrite (atomic_write_unfold _ _ _ _ _ Htmp).
  unfold write_text. rewrite Hwrite. eexists. split; [reflexivity|].
  simpl. split; [by apply added_app|]. by rewrite lookup_insert_eq.
Qed.

End AtomicWriteFiles.
(** ** What the credential daemon leaves on disk *)

Section Publication.

Context (lib : PyLib) (env : Env).

Lemma kept_or_refl rendering f w : kept_or rendering f w w.
Proof. by left. Qed.

Lemma kept_or_trans rendering f w1 w2 w3 :
  kept_or rendering f w1 w2 → kept_or rendering f w2 w3 →
  kept_or rendering f w1 w3.
Proof.
  intros H12 [H23|(c & Hc & H23)].
  - destruct H12 as [H12|(c & Hc & H12)].
    + left. congruence.
    + right. exists c. split; [done|congruence].
  - right. by exists c.
Qed.

Global Instance complete_or_kept_preorder creds_path :
  PreOrder (complete_or_kept lib creds_path).
Proof.
  split.
  - intros w. repeat split; apply kept_or_refl.
  - intros w1 w2 w3 (A1 & B1 & C1) (A2 & B2 & C2).
    repeat split; eapply kept_or_trans; eauto.
Qed.

Lemma same_files_kept creds_path w w' :
  files w' = files w → complete_or_kept lib creds_path w w'.
Proof. intros H. repeat split; left; by rewrite H. Qed.

(** The five paths of the daemon, all directly under its directory. *)
Lemma daemon_paths (creds_path : path) :
  env_file creds_path = (creds_path ++ ["aws-credentials.env"])%list ∧
  json_file creds_path = (creds_path ++ ["aws-credentials.json"])%list ∧
  aws_creds_file creds_path = (creds_path ++ ["credentials"])%list ∧
  truediv creds_path "aws-credentials.tmp"
    = (creds_path ++ ["aws-credentials.tmp"])%list ∧
  truediv creds_path "credentials.tmp"
    = (creds_path ++ ["credentials.tmp"])%list.
Proof.
  unfold env_file, json_file, aws_creds_file.
  by rewrite !file_in_directory by (by vm_compute).
Qed.

Lemma aws_creds_file_tmp (creds_path : path) :
  with_suffix (aws_creds_file creds_path) ".tmp"
  = inr (truediv creds_path "credentials.tmp").
Proof.
  unfold aws_creds_file.
  rewrite !file_in_directory by (by vm_compute).
  by rewrite with_suffix_tmp.
Qed.

Lemma snoc_ne (p : path) a b : a ≠ b → (p ++ [a])%list ≠ (p ++ [b])%list.
Proof. intros Hab H. apply app_inj_tail in H as [_ H]. done. Qed.

(** Tells the five paths apart. *)
Ltac tell_apart creds_path :=
  let E1 := fresh in let E2 := fresh in let E3 := fresh in
  let E4 := fresh in let E5 := fresh in
  destruct (daemon_paths creds_path) as (E1 & E2 & E3 & E4 & E5);
  rewrite ?E1, ?E2, ?E3, ?E4, ?E5 in *; clear E1 E2 E3 E4 E5;
  try (apply snoc_ne; discriminate).

Lemma atomic_write_kept creds_path (f : path) content tmp_path :
  with_suffix f ".tmp" = inr tmp_path →
  tmp_path ≠ f →
  (env_file creds_path = f ∨ env_file creds_path ≠ tmp_path) →
  (json_file creds_path = f ∨ json_file creds_path ≠ tmp_path) →
  (aws_creds_file creds_path = f ∨ aws_creds_file creds_path ≠ tmp_path) →
  (f = env_file creds_path →
   ∃ t creds region, content = env_content lib t creds region) →
  (f = json_file creds_path →
   ∃ creds region, content = json_content lib creds region) →
  (f = aws_creds_file creds_path →
   ∃ t creds region, content = aws_creds_content lib t creds region) →
  io_sat (complete_or_kept lib creds_path) (_atomic_write env f content).
Proof.
  intros Htmp Hne H1 H2 H3 Henv Hjson Hsdk w r w' Hrun.
  destruct (atomic_write_effect _ _ _ _ _ _ _ Htmp Hne Hrun) as [Hf Hq].
  assert (∀ rendering g,
    g = f ∨ g ≠ tmp_path →
    (g = f → rendering content) → kept_or rendering g w w') as Hkept.
  { intros rendering g Hg Hgood.
    destruct (decide (g = f)) as [->|Hgf].
    - destruct Hf as [Hf|Hf]; [by left|]. right. exists content. auto.
    - left. apply Hq; [done|]. by destruct Hg. }
  split; [|split]; apply Hkept; auto.
Qed.

(** Settles where a file of the daemon stands to a target and its
    temporary path. *)
Ltac place creds_path :=
  first [ by left
        | right; tell_apart creds_path ].

Ltac other_file creds_path :=
  let Heq := fresh in
  intros Heq; exfalso; revert Heq; tell_apart creds_path.

Lemma refresh_complete_or_kept creds_path :
  sat (complete_or_kept lib creds_path)
      (credential_refresh lib env creds_path).
Proof.
  unfold credential_refresh.
  apply sat_bind; [apply _| |intros creds].
  { eapply sat_weaken; [|apply exchanged_get_aws_credentials].
    intros w w' [_ Hfiles]. by apply same_files_kept. }
  apply sat_bind; [apply _| |intros generated].
  { apply sat_io. intros w r w' H.
    unfold datetime_now in H. simplify_eq. by apply same_files_kept. }
  apply sat_bind; [apply _|apply sat_get_self; apply _|intros self].
  apply sat_bind; [apply _| |intros []].
  { apply sat_io.
    eapply atomic_write_kept;
      [apply env_file_tmp|tell_apart creds_path|place creds_path
      |place creds_path|place creds_path| | |].
    - intros _. by eexists _, _, _.
    - other_file creds_path.
    - other_file creds_path. }
  apply sat_bind; [apply _| |intros []].
  { apply sat_io.
    eapply atomic_write_kept;
      [apply json_file_tmp|tell_apart creds_path|place creds_path
      |place creds_path|place creds_path| | |].
    - other_file creds_path.
    - intros _. by eexists _, _.
    - other_file creds_path. }
  apply sat_bind; [apply _| |intros generated'].
  { apply sat_io. intros w r w' H.
    unfold datetime_now in H. simplify_eq. by apply same_files_kept. }
  apply sat_io.
  eapply atomic_write_kept;
    [apply aws_creds_file_tmp|tell_apart creds_path|place creds_path
    |place creds_path|place creds_path| | |].
  - other_file creds_path.
  - other_file creds_path.
  - intros _. by eexists _, _, _.
Qed.

(** X16. However many cycles the credential daemon runs and whatever goes
    wrong in them, each of its three files is, at the end, either as it
    was at the start or a complete rendering of some credentials: a failed
    or interrupted write never shows in a published file. *)
Theorem published_files_are_never_partial
    creds_path interval n self w r self' w' :
  credential_daemon_loop lib env n creds_path interval (self, w)
    = (r, (self', w')) →
  complete_or_kept lib creds_path w w'.
Proof.
  revert self w r self' w'.
  change (sat (complete_or_kept lib creds_path)
            (credential_daemon_loop lib env n creds_path interval)).
  induction n as [|n IH]; simpl.
  - apply sat_ret; apply _.
  - apply sat_bind; [apply _| |by intros []].
    unfold credential_daemon_cycle.
    apply sat_bind; [apply _| |intros []].
    + apply sat_try. apply refresh_complete_or_kept.
    + apply sat_io. intros w r w' H. unfold sleep in H.
      apply same_files_kept. by case_match; simplify_eq.
Qed.

(** The files after a refresh that went through, in terms of the
    credentials its exchange returned. *)
Lemma refresh_publishes_exchanged creds_path self w creds s1 w1 self' w' :
  get_aws_credentials lib env (self, w) = (inr creds, (s1, w1)) →
  credential_refresh lib env creds_path (self, w) = (inr (), (self', w')) →
  ∃ t1 t2,
    files w' !! env_file creds_path
      = Some (env_content lib t1 creds (aws_region (config s1))) ∧
    files w' !! json_file creds_path
      = Some (json_content lib creds (aws_region (config s1))) ∧
    files w' !! aws_creds_file creds_path
      = Some (aws_creds_content lib t2 creds (aws_region (config s1))) ∧
    files w' !! truediv creds_path "aws-credentials.tmp" = None ∧
    files w' !! truediv creds_path "credentials.tmp" = None.
Proof.
  intros Hc H. unfold credential_refresh in H.
  rewrite (bind_inr _ _ _ _ _ Hc) in H.
  apply bind_inv in H as [(e & _ & [=])|(t1 & [s2 w2] & Hnow & H)].
  apply io_inv in Hnow as [-> Hnow].
  apply bind_inv in H as [(e & _ & [=])|(self0 & [s3 w3] & Hself & H)].
  unfold get_self in Hself. simplify_eq/=.
  apply bind_inv in H as [(e & _ & [=])|([] & [s4 w4] & Henv & H)].
  apply io_inv in Henv as [-> Henv].
  apply bind_inv in H as [(e & _ & [=])|([] & [s5 w5] & Hjson & H)].
  apply io_inv in Hjson as [-> Hjson].
  apply bind_inv in H as [(e & _ & [=])|(t2 & [s6 w6] & Hnow' & H)].
  apply io_inv in Hnow' as [-> Hnow'].
  apply io_inv in H as [-> Hsdk].
  unfold datetime_now in Hnow, Hnow'. simplify_eq.
  apply (atomic_write_done_files _ _ _ _ _ _ (env_file_tmp creds_path)) in Henv.
  apply (atomic_write_done_files _ _ _ _ _ _ (json_file_tmp creds_path))
    in Hjson.
  apply (atomic_write_done_files _ _ _ _ _ _ (aws_creds_file_tmp creds_path))
    in Hsdk.
  simpl in *.
  exists (clock env (trace w1)), (clock env (trace w5)).
  rewrite Hsdk, Hjson, Henv.
  destruct (daemon_paths creds_path) as (-> & -> & -> & -> & ->).
  assert (∀ a b : string, a ≠ b →
            (creds_path ++ [a])%list ≠ (creds_path ++ [b])%list) as Hne
    by (intros; by apply snoc_ne).
  repeat split;
    repeat first
      [ rewrite lookup_insert_eq
      | rewrite lookup_delete_eq
      | rewrite lookup_insert_ne by (apply Hne; discriminate)
      | rewrite lookup_delete_ne by (apply Hne; discriminate) ];
    done.
Qed.

(** X17. When the refresh of a cycle goes through, the three files hold
    the env, JSON and profile renderings of one and the same credentials,
    the ones [get_aws_credentials] returned and the cache holds, and
    neither of the two temporary paths exists any more. *)
Theorem successful_refresh_publishes creds_path self w self' w' :
  credential_refresh lib env creds_path (self, w) = (inr (), (self', w')) →
  ∃ creds t1 t2,
    _aws_creds self' = Some creds ∧
    files w' !! env_file creds_path
      = Some (env_content lib t1 creds (aws_region (config self))) ∧
    files w' !! json_file creds_path
      = Some (json_content lib creds (aws_region (config self))) ∧
    files w' !! aws_creds_file creds_path
      = Some (aws_creds_content lib t2 creds (aws_region (config self))) ∧
    files w' !! truediv creds_path "aws-credentials.tmp" = None ∧
    files w' !! truediv creds_path "credentials.tmp" = None.
Proof.
  intros H.
  destruct (get_aws_credentials lib env (self, w)) as [[e|creds] [s1 w1]]
    eqn:Hc.
  { unfold credential_refresh in H.
    by rewrite (bind_inl _ _ _ _ _ Hc) in H. }
  destruct (refresh_publishes_exchanged _ _ _ _ _ _ _ _ Hc H)
    as (t1 & t2 & Hfiles).
  destruct (get_aws_credentials_outcome lib env _ _ _ _ _ Hc)
    as [Hcfg Hcached].
  simpl in Hcached. rewrite Hcfg in Hfiles.
  exists creds, t1, t2. split; [|exact Hfiles].
  (* the writes leave the provider as the exchange left it *)
  unfold credential_refresh in H. rewrite (bind_inr _ _ _ _ _ Hc) in H.
  assert (self' = s1) as ->; [|done].
  repeat (apply bind_inv in H as [(? & _ & [=])|(? & [? ?] & Hstep & H)];
          first [ apply io_inv in Hstep as [-> _]
                | unfold get_self in Hstep; simplify_eq/= ]).
  by apply io_inv in H as [-> _].
Qed.

End Publication.
(** ** The entry point and the daemons *)

Section EntryPoint.

Context (lib : PyLib) (env : Env).

(** X18. In single-emission mode, when [get_aws_credentials] fails, [main]
    ends with exit code 1 and has printed nothing: a line on standard
    output means that credentials were obtained. *)
Theorem failed_emission_prints_nothing n environ cfg w e self' w1 :
  from_env environ = inr cfg →
  get_aws_credentials lib env (new_provider cfg, w) = (inl e, (self', w1)) →
  main lib env n environ GetCredentials w = (Exited 1, w1) ∧
  filter (λ ev, is_print_event ev = true) (added w w1) = [].
Proof.
  intros Hcfg Hfail. split.
  - unfold main, run_command. rewrite Hcfg. cbv beta iota.
    unfold cmd_get_credentials. rewrite (bind_inl _ _ _ _ _ Hfail).
    pose proof (safe_get_aws_credentials lib env _ _ _ Hfail).
    by destruct e.
  - destruct (exchanged_get_aws_credentials lib env _ _ _ _ _ Hfail)
      as [(evs & Htr & Hevs) _].
    rewrite (added_app _ _ _ Htr). by apply no_print_filtered.
Qed.

(** X19. With a negative interval the credential daemon does not loop:
    after the directory was made, the first cycle runs its refresh, whose
    errors are caught, and then [time.sleep] raises [ValueError], which
    ends [main] with exit code 1 before any sleep. *)
Theorem negative_interval_stops_daemon n environ cfg creds_dir interval w :
  let creds_path := Path (default default_creds_dir creds_dir) in
  from_env environ = inr cfg →
  (interval < 0)%Z →
  fs_mkdir env (trace w) creds_path = FsOk →
  ∃ r self1 w1,
    credential_refresh lib env creds_path
      (new_provider cfg, emit (EvMkdir creds_path) w) = (r, (self1, w1)) ∧
    main lib env (S n) environ (CredentialDaemon creds_dir (Some interval)) w
    = (Exited 1, w1) ∧
    filter (λ ev, is_sleep_event ev = true) (added w w1) = [].
Proof.
  intros creds_path Hcfg Hneg Hmkdir.
  destruct (try_except_safe (credential_refresh lib env creds_path)
              (new_provider cfg, emit (EvMkdir creds_path) w)
              (safe_credential_refresh lib env creds_path))
    as ([self1 w1] & Htry & r & Hbody).
  exists r, self1, w1. split; [done|]. split.
  - unfold main, run_command. rewrite Hcfg. cbv beta iota.
    unfold cmd_credential_daemon. simpl default. fold creds_path.
    assert (io (mkdir env creds_path) (new_provider cfg, w)
            = (inr (), (new_provider cfg, emit (EvMkdir creds_path) w)))
      as Hdir.
    { unfold io, mkdir. simpl. by rewrite Hmkdir. }
    rewrite (bind_inr _ _ _ _ _ Hdir).
    change (credential_daemon_loop lib env (S n) creds_path interval)
      with (credential_daemon_cycle lib env creds_path interval;;
            credential_daemon_loop lib env n creds_path interval).
    assert (credential_daemon_cycle lib env creds_path interval
              (new_provider cfg, emit (EvMkdir creds_path) w)
            = (inl (ValueError "sleep length must be non-negative"),
               (self1, w1))) as Hcycle.
    { unfold credential_daemon_cycle. rewrite (bind_inr _ _ _ _ _ Htry).
      unfold io, sleep. simpl. by rewrite (proj2 (Z.ltb_lt _ _) Hneg). }
    by rewrite (bind_inl _ _ _ _ _ Hcycle).
  - destruct (unslept_credential_refresh lib env creds_path _ _ _ _ _ Hbody)
      as (evs & Htr & Hevs).
    erewrite added_app; last first.
    { rewrite Htr, emit_trace, <- app_assoc. reflexivity. }
    simpl. rewrite filter_cons. simpl. by apply no_sleep_filtered.
Qed.


End EntryPoint.
(** ** The token daemon *)

Section TokenDaemon.

Context (lib : PyLib) (env : Env).

Lemma safe_token_refresh token_file :
  safe (token_refresh lib env token_file).
Proof.
  unfold token_refresh.
  apply safe_bind; [apply safe_get_oidc_token|intros token].
  apply safe_bind; [apply safe_io, safe_mkdir|intros []].
  destruct token; try (by apply safe_io, safe_atomic_write).
  all: apply safe_bind; [apply safe_lift, safe_with_suffix|intros ?].
  all: by apply safe_raise.
Qed.

Global Instance extends_preorder (P : event → bool) : PreOrder (extends P).
Proof.
  split.
  - intros w. apply extends_refl.
  - intros w1 w2 w3. apply extends_trans.
Qed.

Lemma get_oidc_token_events :
  sat (extends is_token_event) (get_oidc_token lib env).
Proof.
  intros self w r self' w'.
  unfold get_oidc_token, _get_auth0_token, _get_cognito_token.
  unfold_monad. unfold_effects. simpl. intros H.
  repeat case_match; simplify_eq/=;
    first [ by eexists [_]
          | eexists [_; _]; simpl; by rewrite <- app_assoc ].
Qed.

Lemma token_refresh_events token_file :
  sat (extends is_token_publish_event) (token_refresh lib env token_file).
Proof.
  assert (∀ p content,
    io_sat (extends is_token_publish_event) (_atomic_write env p content))
    as Hwrite.
  { intros p content w r w' H. unfold _atomic_write in H. revert H.
    unfold_monad. unfold_effects. unfold lift. intros H.
    repeat case_match; simplify_eq/=;
      first [ apply extends_refl
            | by eexists [_]
            | eexists [_; _]; simpl; by rewrite <- app_assoc ]. }
  unfold token_refresh.
  apply sat_bind; [apply _| |intros token].
  { eapply sat_weaken; [|apply get_oidc_token_events].
    intros w w' E. eapply extends_weaken; [|exact E]. by intros []. }
  apply sat_bind; [apply _| |intros []].
  { apply sat_io. intros w r w' H. unfold mkdir in H.
    case_match; simplify_eq; by eexists [_]. }
  destruct token; try (by apply sat_io).
  all: apply sat_bind; [apply _|apply sat_lift; apply _|intros ?].
  all: apply sat_raise; apply _.
Qed.

Lemma keeps_bind {A B} (m : Prov A) (f : A → Prov B) :
  keeps_credentials m → (∀ a, keeps_credentials (f a)) →
  keeps_credentials (m ≫= f).
Proof.
  intros Hm Hf self w r self' w'
    [(e & H & ?)|(a & [s1 w1] & H & Hfa)]%bind_inv.
  - eauto.
  - destruct (Hm _ _ _ _ _ H) as [? ?], (Hf _ _ _ _ _ _ Hfa) as [? ?].
    split; congruence.
Qed.

Lemma keeps_io {A} (m : IO A) : keeps_credentials (io m).
Proof. intros self w r self' w' [-> _]%io_inv. done. Qed.

Lemma keeps_pure {A} (r0 : exn + A) : keeps_credentials (lift r0).
Proof. unfold keeps_credentials, lift. intros. by simplify_eq. Qed.

Lemma keeps_try (body : Prov unit) :
  keeps_credentials body → keeps_credentials (try_except_Exception body).
Proof.
  unfold keeps_credentials, try_except_Exception.
  intros Hb self w r self' w' H.
  destruct (body (self, w)) as [[e|[]] [s1 w1]] eqn:Hbody.
  - destruct (is_Exception e); simplify_eq; eauto.
  - simplify_eq. eauto.
Qed.

Lemma token_refresh_keeps token_file :
  keeps_credentials (token_refresh lib env token_file).
Proof.
  unfold token_refresh.
  apply keeps_bind; [intros ?????; apply get_oidc_token_keeps|intros token].
  apply keeps_bind; [apply keeps_io|intros []].
  destruct token; try apply keeps_io.
  all: apply keeps_bind; [apply keeps_pure|intros ?].
  all: unfold keeps_credentials, raise; intros; by simplify_eq.
Qed.

Lemma token_cycle_runs token_file interval self w :
  (0 ≤ interval)%Z →
  ∃ self1 w1 evs,
    token_daemon_cycle lib env token_file interval (self, w)
    = (inr (), (self1, emit (EvSleep interval) w1)) ∧
    trace w1 = (trace w ++ evs)%list ∧
    forallb is_token_publish_event evs = true ∧
    config self1 = config self ∧ _aws_creds self1 = _aws_creds self.
Proof.
  intros Hint.
  destruct (try_except_safe (token_refresh lib env token_file)
              (self, w) (safe_token_refresh token_file))
    as ([self1 w1] & Htry & r & Hbody).
  destruct (token_refresh_events token_file _ _ _ _ _ Hbody)
    as (evs & Htr & Hevs).
  destruct (token_refresh_keeps token_file _ _ _ _ _ Hbody) as [Hcfg Hcreds].
  exists self1, w1, evs. split; [|done].
  unfold token_daemon_cycle. rewrite (bind_inr _ _ _ _ _ Htry).
  unfold io, sleep. simpl. by rewrite (proj2 (Z.ltb_ge interval 0) Hint).
Qed.

Lemma token_loop_runs token_file interval n :
  (0 ≤ interval)%Z →
  ∀ self w, ∃ self' w' evs,
    token_daemon_loop lib env n token_file interval (self, w)
    = (inr (), (self', w')) ∧
    trace w' = (trace w ++ evs)%list ∧
    filter (λ ev, is_sleep_event ev = true) evs
    = replicate n (EvSleep interval) ∧
    forallb (λ ev, negb (is_sts_event ev)) evs = true ∧
    config self' = config self ∧ _aws_creds self' = _aws_creds self.
Proof.
  intros Hint. induction n as [|n IH]; intros self w.
  - exists self, w, []. by rewrite app_nil_r.
  - destruct (token_cycle_runs token_file interval self w Hint)
      as (self1 & w1 & evs & Hc & Htr & Hevs & Hcfg & Hcreds).
    destruct (IH self1 (emit (EvSleep interval) w1))
      as (self' & w' & rest & Hloop & Hrest & Hcount & Hsts & Hcfg' & Hcreds').
    exists self', w', (evs ++ EvSleep interval :: rest)%list.
    simpl. rewrite (bind_inr _ _ _ _ _ Hc).
    split; [done|]. split; [|split; [|split; [|split; congruence]]].
    + rewrite Hrest, emit_trace, Htr. by rewrite <- !app_assoc.
    + rewrite filter_app. rewrite (no_sleep_filtered evs).
      * simpl. rewrite filter_cons. simpl. by rewrite Hcount.
      * rewrite forallb_forall in *. intros ev Hin.
        specialize (Hevs ev Hin). by destruct ev.
    + rewrite forallb_app. simpl. rewrite Hsts, andb_true_r.
      rewrite forallb_forall in *. intros ev Hin.
      specialize (Hevs ev Hin). by destruct ev.
Qed.


(** What [get_oidc_token] returns is what the provider holds. *)
Lemma get_oidc_token_returns_cached self w token self' w' :
  get_oidc_token lib env (self, w) = (inr token, (self', w')) →
  _oidc_token self' = token.
Proof.
  destruct (token_cache_valid self (clock env (trace w))) eqn:Hv.
  - rewrite get_oidc_token_hit by done. intros. by simplify_eq.
  - rewrite get_oidc_token_miss by done.
    intros (? & ? & ? & _ & _ & _ & _ & ->)%fetch_success. done.
Qed.

(** X22. When the refresh of a token daemon cycle goes through, the token
    file holds exactly the token the provider has cached, which is a
    string.  A token that is not a string is never written: the refresh
    fails and the files are as they were. *)
Theorem token_file_holds_cached_token token_file self w :
  (∀ self' w',
     token_refresh lib env token_file (self, w) = (inr (), (self', w')) →
     ∃ text, _oidc_token self' = JStr text ∧
             files w' !! token_file = Some text) ∧
  (∀ token self1 w1,
     get_oidc_token lib env (self, w) = (inr token, (self1, w1)) →
     (∀ text, token ≠ JStr text) →
     ∃ e w',
       token_refresh lib env token_file (self, w) = (inl e, (self1, w')) ∧
       files w' = files w).
Proof.
  split.
  - intros self' w' H. unfold token_refresh in H.
    apply bind_inv in H as [(e & _ & [=])|(token & [s1 w1] & Htok & H)].
    apply bind_inv in H as [(e & _ & [=])|([] & [s2 w2] & Hdir & H)].
    apply io_inv in Hdir as [-> Hdir].
    apply get_oidc_token_returns_cached in Htok.
    destruct token as [| | |text| |];
      try (apply bind_inv in H as [(e & _ & [=])|(? & [? ?] & _ & H)];
           by unfold raise in H).
    apply io_inv in H as [-> H]. exists text. split; [done|].
    destruct (atomic_write_done _ _ _ _ _ H) as (tmp_path & Htmp & _).
    rewrite (atomic_write_done_files _ _ _ _ _ _ Htmp H).
    by rewrite lookup_insert_eq.
  - intros token self1 w1 Htok Hnot.
    destruct (exchanged_get_oidc_token lib env _ _ _ _ _ Htok) as [_ Hfiles].
    unfold token_refresh. rewrite (bind_inr _ _ _ _ _ Htok).
    unfold_monad. unfold mkdir. simpl.
    destruct (fs_mkdir env (trace w1) (parent token_file));
      [|by eexists _, _].
    destruct token as [| | |text| |]; try by destruct (Hnot text).
    all: simpl; destruct (with_suffix token_file ".tmp");
      by eexists _, _.
Qed.

End TokenDaemon.

(** ** Cached credentials in the credential daemon *)

Section Republication.

Context (lib : PyLib) (env : Env).

Lemma quiet_atomic_write p content :
  io_sat (extends (λ ev, negb (is_request_event ev)))
    (_atomic_write env p content).
Proof.
  intros w r w' H. unfold _atomic_write in H. revert H.
  unfold_monad. unfold_effects. unfold lift. intros H.
  repeat case_match; simplify_eq/=;
    first [ apply extends_refl
          | by eexists [_]
          | eexists [_; _]; simpl; by rewrite <- app_assoc ].
Qed.

Lemma quiet_datetime_now :
  io_sat (extends (λ ev, negb (is_request_event ev))) (datetime_now env).
Proof.
  intros w r w' H. unfold datetime_now in H. simplify_eq. by eexists [_].
Qed.


End Republication.

(** ** Exit status and standard output *)

Section ExitStatus.

Context (lib : PyLib) (env : Env).

Local Abbreviation silent := (extends (λ ev, negb (is_print_event ev))).

Lemma silent_exchanged w w' : exchanged w w' → silent w w'.
Proof. intros [E _]. eapply extends_weaken; [|exact E]. by intros []. Qed.

Lemma silent_atomic_write p content :
  io_sat silent (_atomic_write env p content).
Proof.
  intros w r w' H. unfold _atomic_write in H. revert H.
  unfold_monad. unfold_effects. unfold lift. intros H.
  repeat case_match; simplify_eq/=;
    first [ apply extends_refl
          | by eexists [_]
          | eexists [_; _]; simpl; by rewrite <- app_assoc ].
Qed.

Lemma silent_datetime_now : io_sat silent (datetime_now env).
Proof.
  intros w r w' H. unfold datetime_now in H. simplify_eq. by eexists [_].
Qed.

Lemma silent_mkdir p : io_sat silent (mkdir env p).
Proof.
  intros w r w' H. unfold mkdir in H. case_match; simplify_eq; by eexists [_].
Qed.

Lemma silent_sleep seconds : io_sat silent (sleep seconds).
Proof.
  intros w r w' H. unfold sleep in H.
  case_match; simplify_eq; [apply extends_refl|by eexists [_]].
Qed.

Lemma silent_filtered evs :
  forallb (λ ev, negb (is_print_event ev)) evs = true →
  filter (λ ev, is_print_event ev = true) evs = [].
Proof.
  induction evs as [|ev evs IH]; [done|]. simpl.
  intros [Hev Hevs]%andb_true_iff. rewrite filter_cons.
  destruct (decide (is_print_event ev = true)) as [Heq|_]; [|by apply IH].
  by rewrite Heq in Hev.
Qed.

Lemma silent_credential_daemon n creds_dir interval :
  sat silent (cmd_credential_daemon lib env n creds_dir interval).
Proof.
  unfold cmd_credential_daemon.
  apply sat_bind; [apply _|apply sat_io, silent_mkdir|intros []].
  induction n as [|n IH]; simpl.
  { apply sat_ret; apply _. }
  apply sat_bind; [apply _| |by intros []].
  unfold credential_daemon_cycle.
  apply sat_bind; [apply _| |intros []; apply sat_io, silent_sleep].
  apply sat_try. unfold credential_refresh.
  pose proof silent_atomic_write. pose proof silent_datetime_now.
  apply sat_bind; [apply _| |intros creds].
  { eapply sat_weaken; [apply silent_exchanged|].
    apply exchanged_get_aws_credentials. }
  apply sat_bind; [apply _|by apply sat_io|intros t1].
  apply sat_bind; [apply _|apply sat_get_self; apply _|intros self0].
  apply sat_bind; [apply _|by apply sat_io|intros []].
  apply sat_bind; [apply _|by apply sat_io|intros []].
  apply sat_bind; [apply _|by apply sat_io|intros t2].
  by apply sat_io.
Qed.

Lemma silent_token_daemon n token_path interval :
  sat silent (cmd_token_daemon lib env n token_path interval).
Proof.
  unfold cmd_token_daemon.
  apply sat_bind; [apply _|apply sat_get_self; apply _|intros self0].
  case_match; [apply sat_raise; apply _|].
  induction n as [|n IH]; simpl.
  { apply sat_ret; apply _. }
  apply sat_bind; [apply _| |by intros []].
  unfold token_daemon_cycle.
  apply sat_bind; [apply _| |intros []; apply sat_io, silent_sleep].
  apply sat_try. unfold token_refresh.
  apply sat_bind; [apply _| |intros token].
  { eapply sat_weaken; [apply silent_exchanged|].
    apply exchanged_get_oidc_token. }
  apply sat_bind; [apply _|apply sat_io, silent_mkdir|intros []].
  destruct token; try (by apply sat_io, silent_atomic_write).
  all: apply sat_bind; [apply _|apply sat_lift; apply _|intros ?].
  all: apply sat_raise; apply _.
Qed.

(** [try ... except Exception] around a safe body is safe. *)
Lemma safe_try {S} (body : M S unit) :
  safe body → safe (try_except_Exception body).
Proof.
  intros Hb s e s' H.
  destruct (try_except_safe body s Hb) as (s1 & Hrun & _). congruence.
Qed.

Lemma safe_credential_daemon n creds_dir interval :
  safe (cmd_credential_daemon lib env n creds_dir interval).
Proof.
  unfold cmd_credential_daemon.
  apply safe_bind; [apply safe_io, safe_mkdir|intros []].
  induction n as [|n IH]; simpl; [apply safe_ret|].
  apply safe_bind; [|by intros []].
  unfold credential_daemon_cycle.
  apply safe_bind; [|intros []; apply safe_io, safe_sleep].
  apply safe_try, safe_credential_refresh.
Qed.

Lemma token_daemon_raises n token_path interval self w e self' w' :
  cmd_token_daemon lib env n token_path interval (self, w)
    = (inl e, (self', w')) →
  e = SystemExit 1 ∨ is_Exception e = true.
Proof.
  unfold cmd_token_daemon. intros H.
  apply bind_inv in H as [(? & H & _)|(self0 & [s1 w1] & _ & H)].
  { unfold get_self in H. simplify_eq. }
  case_match; [unfold raise in H; left; by simplify_eq|].
  right. revert H. generalize s1 w1. clear.
  assert (safe (token_daemon_loop lib env n (Path token_path) interval))
    as Hsafe; [|intros s1 w1 H; by eapply Hsafe].
  induction n as [|n IH]; simpl; [apply safe_ret|].
  apply safe_bind; [|by intros []].
  unfold token_daemon_cycle.
  apply safe_bind; [|intros []; apply safe_io, safe_sleep].
  apply safe_try, safe_token_refresh.
Qed.

(** X24. [main] ends with exit code 0 or 1, or its daemon is still
    looping.  It ends with 0 only in single-emission mode, after exactly
    one printed line; in every other case, a daemon still looping or any
    command ending with 1, nothing was printed.  Standard output thus
    holds either nothing or the one line of credentials. *)
Theorem exit_status_and_stdout n environ cmd w st w' :
  main lib env n environ cmd w = (st, w') →
  let lines := filter (λ ev, is_print_event ev = true) (added w w') in
  (st = Exited 0 ∧ cmd = GetCredentials ∧ ∃ line, lines = [EvPrint line]) ∨
  ((st = Exited 1 ∨ (st = Looping ∧ is_daemon cmd = true)) ∧ lines = []).
Proof.
  unfold main. destruct (from_env environ) as [e|cfg].
  { intros [= <- <-]. right. split; [by left|].
    by rewrite (added_app w w []) by (by rewrite app_nil_r). }
  destruct (run_command lib env n cmd (new_provider cfg, w))
    as [r [s1 w1]] eqn:Hrun.
  destruct cmd as [|creds_dir interval|token_file interval];
    unfold run_command in Hrun.
  - unfold cmd_get_credentials in Hrun.
    apply bind_inv in Hrun as [(e & Hfail & ->)|(creds & [s2 w2] & Hc & Hp)].
    + pose proof (safe_get_aws_credentials lib env _ _ _ Hfail) as He.
      destruct (exchanged_get_aws_credentials lib env _ _ _ _ _ Hfail)
        as [(evs & Htr & Hevs) _].
      intros H. right. split.
      * left. destruct e; by simplify_eq/=.
      * assert (w' = w1) as -> by (destruct e; by simplify_eq/=).
        rewrite (added_app _ _ _ Htr). by apply no_print_filtered.
    + destruct (exchanged_get_aws_credentials lib env _ _ _ _ _ Hc)
        as [(evs & Htr & Hevs) _].
      apply io_inv in Hp as [-> Hp]. unfold print in Hp.
      injection Hp as <- <-. simpl. intros [= <- <-]. left.
      split; [done|]. split; [done|]. eexists.
      rewrite (added_app w _ (evs ++ [EvPrint _])%list)
        by (simpl; by rewrite Htr, <- app_assoc).
      by rewrite filter_app, (no_print_filtered _ Hevs).
  - pose proof (silent_credential_daemon _ _ _ _ _ _ _ _ Hrun) as Hquiet.
    apply extends_added, silent_filtered in Hquiet.
    destruct r as [e|[]]; simpl.
    + pose proof (safe_credential_daemon _ _ _ _ _ _ Hrun) as He.
      intros H. right.
      assert (st = Exited 1 ∧ w' = w1) as [-> ->]
        by (destruct e; by simplify_eq/=).
      split; [by left|done].
    + intros [= <- <-]. right. split; [by right|done].
  - pose proof (silent_token_daemon _ _ _ _ _ _ _ _ Hrun) as Hquiet.
    apply extends_added, silent_filtered in Hquiet.
    destruct r as [e|[]]; simpl.
    + pose proof (token_daemon_raises _ _ _ _ _ _ _ _ Hrun) as He.
      intros H. right.
      assert (st = Exited 1 ∧ w' = w1) as [-> ->]
        by (destruct He as [->|He]; [|destruct e]; by simplify_eq/=).
      split; [by left|done].
    + intros [= <- <-]. right. split; [by right|done].
Qed.

End ExitStatus.

(** ** The requests of one exchange *)

Section RequestBudget.

Context (lib : PyLib) (env : Env).

(** The worlds a call of [get_oidc_token] can end in. *)
Lemma get_oidc_token_world self w r self' w' :
  get_oidc_token lib env (self, w) = (r, (self', w')) →
  let now := emit (EvNow (clock env (trace w))) w in
  (w' = now ∧ ∃ token, r = inr token) ∨
  w' = emit (EvPost (token_request lib (config self))) now.
Proof.
  intros H now.
  destruct (token_cache_valid self (clock env (trace w))) eqn:Hv.
  - rewrite get_oidc_token_hit in H by done. simplify_eq. left. eauto.
  - rewrite get_oidc_token_miss in H by done. right.
    by apply fetch_posts_once in H.
Qed.

(** Once the token is there, either backend makes its one request. *)
Lemma exchange_step self w token self1 w1 r self' w' :
  get_oidc_token lib env (self, w) = (inr token, (self1, w1)) →
  (if String.eqb (idp_type (config self)) "auth0"
   then _get_aws_credentials_auth0 lib env
   else _get_aws_credentials_cognito lib env) (self, w) = (r, (self', w')) →
  w' = emit (exchange_event (config self) token) w1.
Proof.
  intros Htok.
  destruct (get_oidc_token_keeps _ _ _ _ _ _ _ Htok) as [Hcfg _].
  unfold exchange_event.
  destruct (String.eqb (idp_type (config self)) "auth0").
  - unfold _get_aws_credentials_auth0. rewrite (bind_inr _ _ _ _ _ Htok).
    unfold_monad. unfold assume_role_with_web_identity. simpl.
    rewrite Hcfg. intros H. repeat case_match; by simplify_eq/=.
  - unfold _get_aws_credentials_cognito. rewrite (bind_inr _ _ _ _ _ Htok).
    unfold_monad. unfold requests_post. simpl.
    rewrite Hcfg. intros H. repeat case_match; by simplify_eq/=.
Qed.

(** X25. One call of [get_aws_credentials] reads the clock once and
    returns, or reads it twice and then makes at most one token request
    followed by at most one exchange request, in this order: nothing is
    retried.  The exchange request is the STS call on the auth0 backend
    and the post to the vending endpoint on the cognito one, never the
    other way round; a run that ends after the token request alone has
    raised. *)
Theorem exchange_request_budget self w r self' w' :
  get_aws_credentials lib env (self, w) = (r, (self', w')) →
  let token_post := EvPost (token_request lib (config self)) in
  ∃ t0 t1 token,
    added w w' = [EvNow t0] ∨
    (added w w' = [EvNow t0; EvNow t1; token_post] ∧ ∃ e, r = inl e) ∨
    added w w' = [EvNow t0; EvNow t1; exchange_event (config self) token] ∨
    added w w' = [EvNow t0; EvNow t1; token_post;
                  exchange_event (config self) token].
Proof.
  intros H token_post.
  exists (clock env (trace w)),
         (clock env (trace (emit (EvNow (clock env (trace w))) w))).
  destruct (creds_cache_valid self (clock env (trace w))) eqn:Hv.
  { exists JNull. left. unfold creds_cache_valid in Hv.
    destruct (_aws_creds self) as [creds|] eqn:Hc; [|done].
    apply Z.ltb_lt in Hv.
    rewrite (get_aws_credentials_hit lib env _ _ _ Hc Hv) in H.
    simplify_eq. apply added_emit. }
  rewrite get_aws_credentials_miss in H by done.
  destruct (get_oidc_token lib env
              (self, emit (EvNow (clock env (trace w))) w))
    as [[e|token] [s1 w1]] eqn:Htok.
  - exists JNull. right. left.
    assert ((r, (self', w')) = (inl e, (s1, w1))) as [= -> -> ->].
    { rewrite <- H.
      destruct (String.eqb (idp_type (config self)) "auth0");
        [unfold _get_aws_credentials_auth0
        |unfold _get_aws_credentials_cognito];
        by rewrite (bind_inl _ _ _ _ _ Htok). }
    split; [|by eauto].
    destruct (get_oidc_token_world _ _ _ _ _ Htok)
      as [[_ [token [=]]]| ->].
    apply added_app. rewrite !emit_trace. by rewrite <- !app_assoc.
  - exists token. right. right.
    rewrite (exchange_step _ _ _ _ _ _ _ _ Htok H).
    destruct (get_oidc_token_world _ _ _ _ _ Htok) as [[-> _]| ->];
      [left|right].
    all: apply added_app; rewrite !emit_trace; by rewrite <- !app_assoc.
Qed.

End RequestBudget.
(** ** The S3 operations *)

Module S3Facts.

Import S3Ops.

Section Facts.

Context (env : S3Env).

Lemma present_inv (o : option string) :
  present o = true ↔ ∃ s, o = Some s ∧ s ≠ "".
Proof.
  unfold present. destruct o as [s|]; split.
  - intros H. exists s. split; [done|]. intros ->. done.
  - intros (s' & [= <-] & Hne).
    destruct (String.eqb s "") eqn:E; [|done]. by apply String.eqb_eq in E.
  - done.
  - by intros (s' & [=] & _).
Qed.

(** X26. [get_config] returns a region, a bucket and a prefix exactly when
    [AWS_REGION] and [S3_BUCKET] are set to non-empty values; what it
    returns are those two values and the value of [S3_PATH_PREFIX], or the
    empty prefix when that variable is not set. *)
Theorem get_config_succeeds_iff environ region bucket prefix :
  get_config environ = inr (region, bucket, prefix) ↔
  environ !! "AWS_REGION" = Some region ∧ region ≠ "" ∧
  environ !! "S3_BUCKET" = Some bucket ∧ bucket ≠ "" ∧
  prefix = default "" (environ !! "S3_PATH_PREFIX").
Proof.
  unfold get_config. split.
  - destruct (present (environ !! "AWS_REGION")) eqn:Hr;
      destruct (present (environ !! "S3_BUCKET")) eqn:Hb; simpl; try done.
    apply present_inv in Hr as (r & Hr & ?), Hb as (b & Hb & ?).
    rewrite Hr, Hb. simpl. intros [= <- <- <-]. done.
  - intros (Hr & Hrne & Hb & Hbne & ->).
    rewrite (proj2 (present_inv _)) by eauto.
    rewrite (proj2 (present_inv (environ !! "S3_BUCKET"))) by eauto.
    simpl. by rewrite Hr, Hb.
Qed.

(** The name of a path holds no slash. *)
Lemma no_slash_cons d x :
  d ≠ "/"%char → str_contains "/" x = false →
  str_contains "/" (String d x) = false.
Proof.
  intros Hd Hx.
  change (str_contains "/" (String d x))
    with (String.prefix "/" (String d x) || str_contains "/" x).
  rewrite Hx, orb_false_r.
  destruct (String.prefix "/" (String d x)) eqn:E; [|done].
  apply String.prefix_correct in E. simpl in E. by injection E as ->.
Qed.

Lemma anchored_has_slash c :
  String.prefix "/" c = true → str_contains "/" c = true.
Proof.
  destruct c as [|d c]; [done|]. intros H.
  change (str_contains "/" (String d c))
    with (String.prefix "/" (String d c) || str_contains "/" c).
  by rewrite H.
Qed.

Lemma split_on_no_slash s :
  Forall (λ c, str_contains "/" c = false) (split_on "/" s).
Proof.
  induction s as [|d s IH]; simpl.
  - by repeat constructor.
  - destruct (Ascii.eqb d "/") eqn:E.
    + by constructor.
    + apply Ascii.eqb_neq in E.
      destruct (split_on "/" s) as [|x r].
      { constructor; [by apply no_slash_cons|constructor]. }
      inversion IH; subst. constructor; [|done]. by apply no_slash_cons.
Qed.

Lemma last_in {A} (l : list A) d : l ≠ [] → In (List.last l d) l.
Proof.
  intros H. rewrite (app_removelast_last d H) at 2.
  apply in_or_app. right. by left.
Qed.

Lemma name_Path_no_slash file : str_contains "/" (name (Path file)) = false.
Proof.
  unfold Path.
  assert (Forall (λ c, str_contains "/" c = false)
            (filter (λ c, is_name c = true) (split_on "/" file))) as Hnames.
  { apply Forall_forall. intros c [_ Hc]%list_elem_of_filter.
    by apply (proj1 (Forall_forall _ _) (split_on_no_slash file)). }
  destruct (filter (λ c, is_name c = true) (split_on "/" file))
    as [|c names].
  { unfold anchor_of. by repeat case_match. }
  assert (str_contains "/" (List.last (c :: names) "") = false) as Hlast.
  { apply (proj1 (Forall_forall _ _) Hnames), list_elem_of_In.
    by apply last_in. }
  unfold anchor_of. repeat case_match.
  1-3: exact Hlast.
  unfold name. simpl app.
  destruct (has_anchor (c :: names)) eqn:Ha; [|exact Hlast].
  apply anchored_has_slash in Ha. inversion Hnames; congruence.
Qed.

(** X27. [cmd_upload] makes no request for a local path that does not
    exist.  For one that exists it makes one upload request, under the key
    given on the command line or, when none or an empty one was given,
    under the prefix followed by the file name with nothing in between;
    it prints [s3://bucket/key] when that request succeeds and nothing
    when it fails.  The file name holds no slash: the directories of the
    local path never reach the key. *)
Theorem upload_key_and_uri file key region bucket prefix t :
  let local_path := Path file in
  let s3_key := if present key then default "" key
                else prefix +:+ name local_path in
  let ev := S3Upload region (str_path local_path) bucket s3_key in
  (path_exists env t local_path = false →
   cmd_upload env file key region bucket prefix t
   = (inl (OSError ("File not found: " +:+ str_path local_path)), t)) ∧
  (path_exists env t local_path = true →
   (upload_file env t region (str_path local_path) bucket s3_key = None →
    cmd_upload env file key region bucket prefix t
    = (inr (),
       (t ++ [ev; S3Print ("s3://" +:+ bucket +:+ "/" +:+ s3_key)])%list)) ∧
   (∀ msg,
      upload_file env t region (str_path local_path) bucket s3_key
        = Some msg →
      cmd_upload env file key region bucket prefix t
      = (inl (ClientError msg), (t ++ [ev])%list))) ∧
  str_contains "/" (name local_path) = false.
Proof.
  intros local_path s3_key ev. unfold cmd_upload. fold local_path.
  split; [by intros ->|]. split; [|apply name_Path_no_slash].
  intros ->. simpl. fold s3_key. fold ev.
  unfold request, print, s3_emit. unfold_monad.
  split; [intros ->|intros msg ->]; [|done].
  by rewrite <- app_assoc.
Qed.

Lemma print_keys keys t :
  foldr (λ key k, print key;; k) (mret ()) keys t
  = (inr (), (t ++ map S3Print keys)%list).
Proof.
  revert t. induction keys as [|key keys IH]; intros t.
  - simpl. by rewrite app_nil_r.
  - change (foldr (λ key k, print key;; k) (mret ()) keys
              (t ++ [S3Print key])%list
            = (inr (), (t ++ S3Print key :: map S3Print keys)%list)).
    rewrite IH. by rewrite <- app_assoc.
Qed.

Lemma print_pages_all pages t :
  forallb came pages = true →
  print_pages pages t = (inr (), (t ++ map S3Print (keys_of pages))%list).
Proof.
  revert t. induction pages as [|[msg|contents] pages IH]; intros t.
  - simpl. by rewrite app_nil_r.
  - done.
  - intros Hpages.
    change (print_pages (Page contents :: pages))
      with (foldr (λ key k, print key;; k) (mret ()) (default [] contents);;
            print_pages pages).
    rewrite (bind_inr _ _ _ _ _ (print_keys _ _)), IH by done.
    unfold keys_of. simpl. by rewrite map_app, app_assoc.
Qed.

Lemma print_pages_until pages msg rest t :
  forallb came pages = true →
  print_pages (pages ++ PageFails msg :: rest) t
  = (inl (ClientError msg), (t ++ map S3Print (keys_of pages))%list).
Proof.
  revert t. induction pages as [|[msg'|contents] pages IH]; intros t.
  - simpl. by rewrite app_nil_r.
  - done.
  - intros Hpages.
    change (print_pages ((Page contents :: pages) ++ PageFails msg :: rest))
      with (foldr (λ key k, print key;; k) (mret ()) (default [] contents);;
            print_pages (pages ++ PageFails msg :: rest)).
    rewrite (bind_inr _ _ _ _ _ (print_keys _ _)), IH by done.
    unfold keys_of. simpl. by rewrite map_app, app_assoc.
Qed.

(** X28. [cmd_list] lists under the prefix given on the command line, or
    under the configured prefix when none or an empty one was given.  When
    every page comes, it prints the keys of all pages, one per line, in the
    order of the pages and of the keys within them, a page without
    [Contents] giving no line.  When a page fails, the keys of the pages
    before it have been printed and the error is raised. *)
Theorem listing_prints_keys_in_order list_prefix_arg region bucket prefix t :
  let list_prefix := if present list_prefix_arg
                     then default "" list_prefix_arg else prefix in
  let pages_at_start := list_pages env t region bucket list_prefix in
  (forallb came pages_at_start = true →
   cmd_list env list_prefix_arg region bucket prefix t
   = (inr (),
      (t ++ S3List region bucket list_prefix
         :: map S3Print (keys_of pages_at_start))%list)) ∧
  (∀ good msg rest,
     pages_at_start = (good ++ PageFails msg :: rest)%list →
     forallb came good = true →
     cmd_list env list_prefix_arg region bucket prefix t
     = (inl (ClientError msg),
        (t ++ S3List region bucket list_prefix
           :: map S3Print (keys_of good))%list)).
Proof.
  intros list_prefix pages_at_start. unfold cmd_list.
  fold list_prefix. fold pages_at_start.
  assert (s3_emit (S3List region bucket list_prefix) t
          = (inr (), (t ++ [S3List region bucket list_prefix])%list))
    as Hstart by done.
  rewrite (bind_inr _ _ _ _ _ Hstart). split.
  - intros Hall. rewrite print_pages_all by done.
    by rewrite <- app_assoc.
  - intros good msg rest -> Hgood. rewrite print_pages_until by done.
    by rewrite <- app_assoc.
Qed.

Ltac settle :=
  first
    [ exists []; rewrite app_nil_r; split; [done|]; by right
    | eexists [_]; split; [done|]; by right
    | eexists [_; _]; rewrite <- app_assoc; split; [done|]; left;
      split; [done|]; by eexists ].


End Facts.

End S3Facts.

(** * Instances

    Each property is run once on the sample surroundings. *)

Section Instances.

Import Sample.

Lemma cached_token_is_reused_witness :
  get_oidc_token lib idp_up (warm auth0, start)
  = (inr (JStr "jwt"), (warm auth0, emit (EvNow 1000) start)).
Proof.
  apply (cached_token_is_reused lib idp_up (warm auth0) start 4000000000);
    reflexivity.
Defined.



Lemma cached_credentials_skip_token_path_witness :
  get_aws_credentials lib idp_up (with_creds, start)
  = (inr cached, (with_creds, emit (EvNow 1000) start)).
Proof.
  apply (cached_credentials_skip_token_path lib idp_up with_creds start cached);
    reflexivity.
Defined.

Lemma vending_error_fails_exchange_witness :
  get_aws_credentials lib (vending_refuses 200) (warm cognito, start)
  = (inl (RuntimeError "Credential vending API error: invalid_client"),
     (warm cognito,
      emit (EvPost (vending_request cognito (JStr "jwt")))
        (emit (EvNow 1000) (emit (EvNow 1000) start)))).
Proof.
  exact (proj1 (vending_error_fails_exchange lib (vending_refuses 200)
                  (warm cognito) start (JStr "jwt") (warm cognito)
                  (emit (EvNow 1000) (emit (EvNow 1000) start))
                  200 [("error", JStr "invalid_client")]
                  (Path default_creds_dir)
                  eq_refl eq_refl eq_refl eq_refl eq_refl)).
Defined.

(** C5, as stated, fails: the vending endpoint answers 401 with the body
    [{"error": "invalid_client"}], and [get_aws_credentials] raises
    [HTTPError(401)], which does not carry [invalid_client]. *)
Lemma vending_error_hidden_by_status :
  let run :=
    get_aws_credentials lib (vending_refuses 401)
      (new_provider cognito, start) in
  http (vending_refuses 401) [] (vending_request cognito (JStr "jwt"))
    = Response 401 (Some (JObj [("error", JStr "invalid_client")])) ∧
  run.1 = inl (HTTPError 401) ∧
  carries (HTTPError 401) "invalid_client" = false ∧
  run.1 ≠ inl (RuntimeError "Credential vending API error: invalid_client").
Proof. by vm_compute. Qed.

Lemma failed_write_keeps_target_witness :
  ∃ w',
    _atomic_write disk_full token_file "new token" published
    = (inl (OSError "No space left on device"), w') ∧
    files w' !! token_file = Some "old token" ∧
    files w' !! token_tmp = Some "new".
Proof.
  destruct (failed_write_keeps_target disk_full token_file "new token"
              published token_tmp eq_refl) as [(msg & w' & H & _ & Hp & Ht) _];
    [discriminate|discriminate|].
  exists w'. split; [|split].
  - rewrite H. f_equal. f_equal.
    assert (inl (OSError msg) = (_atomic_write disk_full token_file
              "new token" published).1 :> exn + ()) as E by (by rewrite H).
    vm_compute in E. by injection E as ->.
  - exact Hp.
  - exact Ht.
Defined.

(** C6, as stated, fails: the write to the temporary path breaks off, and
    the temporary file, which was not there before, is on disk afterwards
    with the characters that were written. *)
Lemma failed_write_leaves_temporary_file :
  let run := _atomic_write disk_full token_file "new token" published in
  fs_write disk_full [] token_tmp "new token"
    = WriteFails 3 "No space left on device" ∧
  run.1 = inl (OSError "No space left on device") ∧
  files published !! token_tmp = None ∧
  files run.2 !! token_tmp = Some "new" ∧
  files run.2 !! token_file = Some "old token".
Proof. by vm_compute. Qed.


Lemma token_daemon_rejects_cognito_witness :
  main lib idp_up 3 cognito_environ (TokenDaemon None None) start
  = (Exited 1, start).
Proof.
  exact (proj2 (token_daemon_rejects_cognito lib idp_up 3 cognito None None
                  start eq_refl) cognito_environ eq_refl).
Defined.


Lemma temporary_paths_collide_witness :
  with_suffix (env_file (Path default_creds_dir)) ".tmp"
  = inr ["/"; "var"; "run"; "aws-creds"; "aws-credentials.tmp"] ∧
  with_suffix (json_file (Path default_creds_dir)) ".tmp"
  = inr ["/"; "var"; "run"; "aws-creds"; "aws-credentials.tmp"].
Proof.
  destruct (temporary_paths_collide lib idp_up (Path default_creds_dir))
    as (_ & Henv & Hjson & _).
  split; [exact Henv|exact Hjson].
Defined.

End Instances.

(** * Further instances

    Each further property with a precondition is run once on the sample
    surroundings. *)

Section FurtherInstances.

Import Sample Cases.

Lemma loaded_config_has_settings_witness :
  idp_type cognito = selected_idp cognito_environ ∧
  cognito_environ !! "AWS_REGION" = Some (aws_region cognito) ∧
  aws_region cognito ≠ "".
Proof.
  destruct (loaded_config_has_settings cognito_environ cognito eq_refl)
    as (Hidp & Hregion & Hset & _).
  by split.
Defined.

Lemma incomplete_config_exits_before_effects_witness :
  main lib idp_up 5 incomplete_environ (CredentialDaemon None None) start
  = (Exited 1, start).
Proof.
  apply (incomplete_config_exits_before_effects lib idp_up 5
           incomplete_environ (CredentialDaemon None None) start).
  reflexivity.
Defined.

Lemma fetched_token_reuse_window_witness :
  get_oidc_token lib idp_down (fetched auth0, start)
  = (inr (JStr "jwt"), (fetched auth0, emit (EvNow 200000000) start)).
Proof.
  destruct (fetched_token_reuse_window lib idp_up (new_provider auth0) start
              (JStr "jwt") (fetched auth0)
              (emit (EvPost (token_request lib auth0))
                 (emit (EvNow 1000) start))
              eq_refl eq_refl eq_refl) as (ttl & Hself & Hlater).
  assert (ttl = timedelta_seconds 3600) as -> by (injection Hself; lia).
  exact (proj1 (Hlater idp_down start) eq_refl).
Defined.


Lemma empty_token_is_never_reused_witness :
  ∃ r self2 w2',
    get_oidc_token lib idp_up
      (with_token (new_provider auth0) (JStr "")
         (1000 + timedelta_seconds 3600), start)
    = (r, (self2, w2')) ∧
    added start w2' = [EvNow 1000; EvPost (token_request lib auth0)].
Proof.
  destruct (empty_token_is_never_reused lib empty_token
              (new_provider auth0) start (JStr "")
              (with_token (new_provider auth0) (JStr "")
                 (1000 + timedelta_seconds 3600))
              (emit (EvPost (token_request lib auth0))
                 (emit (EvNow 1000) start))
              eq_refl eq_refl eq_refl) as [_ Hlater].
  exact (Hlater idp_up start).
Defined.

Lemma exchange_writes_cache_only_on_success_witness :
  let run :=
    get_aws_credentials lib (vending_refuses 401) (with_stale, start) in
  run.1 = inl (HTTPError 401) ∧ _aws_creds run.2.1 = Some stale.
Proof.
  intros run. split; [reflexivity|].
  destruct (exchange_writes_cache_only_on_success lib (vending_refuses 401)
              with_stale start run.1 run.2.1 run.2.2 eq_refl)
    as (_ & Hfail & _).
  exact (Hfail (HTTPError 401) eq_refl).
Defined.


Lemma sts_failure_keeps_token_witness :
  get_aws_credentials lib sts_down (new_provider auth0, start)
  = (inl (ClientError "AccessDenied"),
     (fetched auth0,
      emit (EvSts (sts_request auth0 (JStr "jwt")))
        (emit (EvPost (token_request lib auth0))
           (emit (EvNow 1000) (emit (EvNow 1000) start))))).
Proof.
  exact (proj1 (sts_failure_keeps_token lib sts_down (new_provider auth0)
                  start (JStr "jwt") (fetched auth0)
                  (emit (EvPost (token_request lib auth0))
                     (emit (EvNow 1000) (emit (EvNow 1000) start)))
                  "AccessDenied" eq_refl eq_refl eq_refl eq_refl)).
Defined.

Lemma vending_credentials_are_cached_witness :
  get_aws_credentials iso_lib vending_up (warm cognito, start)
  = (inr vended,
     (with_creds_of (warm cognito) vended,
      emit (EvPost (vending_request cognito (JStr "jwt")))
        (emit (EvNow 1000) (emit (EvNow 1000) start)))).
Proof.
  apply (vending_credentials_are_cached iso_lib vending_up (warm cognito)
           start (JStr "jwt") (warm cognito)
           (emit (EvNow 1000) (emit (EvNow 1000) start)) 200
           [("credentials", JObj vended_credentials)] vended_credentials
           "2030-01-01T00:00:00Z" 1893456000000000
           (JStr "AKIA2") (JStr "s3cr3t2") (JStr "tok2"));
    reflexivity.
Defined.

Lemma utc_marker_is_normalised_witness :
  _get_aws_credentials_cognito iso_lib vending_up (warm cognito, start)
  = (inr vended,
     (with_creds_of (warm cognito) vended,
      emit (EvPost (vending_request cognito (JStr "jwt")))
        (emit (EvNow 1000) start))).
Proof.
  apply (utc_marker_is_normalised iso_lib vending_up (warm cognito)
           start (JStr "jwt") (warm cognito) (emit (EvNow 1000) start) 200
           [("credentials", JObj vended_credentials)] vended_credentials
           "2030-01-01T00:00:00" "Z" 1893456000000000
           (JStr "AKIA2") (JStr "s3cr3t2") (JStr "tok2"));
    try reflexivity.
  by left.
Defined.

Lemma malformed_vending_response_fails_witness :
  _get_aws_credentials_cognito lib vending_empty (warm cognito, start)
  = (inl (KeyError "credentials"),
     (warm cognito,
      emit (EvPost (vending_request cognito (JStr "jwt")))
        (emit (EvNow 1000) start))).
Proof.
  exact (proj1 (malformed_vending_response_fails lib vending_empty
                  (warm cognito) start (JStr "jwt") (warm cognito)
                  (emit (EvNow 1000) start) 200 []
                  eq_refl eq_refl eq_refl eq_refl) eq_refl).
Defined.

Lemma atomic_write_publishes_witness :
  let run := _atomic_write idp_up token_file "new token" published in
  files run.2 !! token_file = Some "new token" ∧
  files run.2 !! token_tmp = None.
Proof.
  intros run.
  destruct (atomic_write_publishes idp_up token_file "new token" published
              run.2 token_tmp eq_refl eq_refl) as (Htarget & Htmp & _).
  split; [exact Htarget|]. by apply Htmp.
Defined.

Lemma failed_rename_keeps_target_witness :
  ∃ w',
    _atomic_write rename_refused token_file "new token" published
    = (inl (OSError "Permission denied"), w') ∧
    files w' !! token_file = Some "old token" ∧
    files w' !! token_tmp = Some "new token".
Proof.
  destruct (failed_rename_keeps_target rename_refused token_file "new token"
              published token_tmp "Permission denied" eq_refl)
    as (w' & Hrun & _ & Htarget & Htmp); [done|reflexivity|reflexivity|].
  exists w'. by split.
Defined.

Lemma tmp_named_target_is_written_in_place_witness :
  ∃ w',
    _atomic_write disk_full token_tmp "new token" published
    = (inl (OSError "No space left on device"), w') ∧
    files w' !! token_tmp = Some "new".
Proof.
  destruct (tmp_named_target_is_written_in_place disk_full token_tmp
              "new token" published 3 "No space left on device"
              eq_refl eq_refl) as (_ & w' & Hrun & _ & Hfile).
  exists w'. by split.
Defined.

Lemma published_files_are_never_partial_witness :
  let run :=
    credential_daemon_loop lib disk_fills 2 (Path default_creds_dir) 2700
      (new_provider auth0, start) in
  complete_or_kept lib (Path default_creds_dir) start run.2.2.
Proof.
  intros run.
  apply (published_files_are_never_partial lib disk_fills
           (Path default_creds_dir) 2700 2 (new_provider auth0) start
           run.1 run.2.1 run.2.2).
  change (run = (run.1, (run.2.1, run.2.2))). clearbody run.
  by destruct run as [r [self' w']].
Defined.

Lemma successful_refresh_publishes_witness :
  let run :=
    credential_refresh lib idp_up (Path default_creds_dir)
      (new_provider auth0, start) in
  ∃ creds,
    _aws_creds run.2.1 = Some creds ∧
    files run.2.2 !! json_file (Path default_creds_dir)
    = Some (json_content lib creds "eu-west-1") ∧
    files run.2.2 !! truediv (Path default_creds_dir) "aws-credentials.tmp"
    = None.
Proof.
  intros run.
  assert (run = (inr (), (run.2.1, run.2.2))) as Hrun
    by (vm_compute; reflexivity).
  destruct (successful_refresh_publishes lib idp_up (Path default_creds_dir)
              (new_provider auth0) start run.2.1 run.2.2 Hrun)
    as (creds & t1 & t2 & Hcreds & _ & Hjson & _ & Htmp & _).
  exists creds. split; [exact Hcreds|]. split; [exact Hjson|exact Htmp].
Defined.

Lemma failed_emission_prints_nothing_witness :
  main lib idp_down 0 auth0_environ GetCredentials start
  = (Exited 1,
     emit (EvPost (token_request lib auth0))
       (emit (EvNow 200000000) (emit (EvNow 200000000) start))).
Proof.
  exact (proj1 (failed_emission_prints_nothing lib idp_down 0 auth0_environ
                  auth0 start (HTTPError 500) (new_provider auth0)
                  (emit (EvPost (token_request lib auth0))
                     (emit (EvNow 200000000) (emit (EvNow 200000000) start)))
                  eq_refl eq_refl)).
Defined.

Lemma negative_interval_stops_daemon_witness :
  ∃ w1,
    main lib idp_down 3 auth0_environ (CredentialDaemon None (Some (-1)))
      start = (Exited 1, w1) ∧
    filter (λ ev, is_sleep_event ev = true) (added start w1) = [].
Proof.
  destruct (negative_interval_stops_daemon lib idp_down 2 auth0_environ
              auth0 None (-1) start eq_refl)
    as (r & self1 & w1 & _ & Hmain & Hsleep); [lia|reflexivity|].
  by exists w1.
Defined.




Lemma exit_status_and_stdout_witness :
  let run := main lib idp_up 2 auth0_environ (TokenDaemon None None) start in
  run.1 = Looping ∧
  filter (λ ev, is_print_event ev = true) (added start run.2) = [].
Proof.
  intros run. split; [reflexivity|].
  destruct (exit_status_and_stdout lib idp_up 2 auth0_environ
              (TokenDaemon None None) start run.1 run.2)
    as [(_ & Hcmd & _)|[_ Hlines]]; [|discriminate Hcmd|exact Hlines].
  change (run = (run.1, run.2)). clearbody run. by destruct run.
Defined.

Lemma exchange_request_budget_witness :
  let run := get_aws_credentials lib idp_up (new_provider auth0, start) in
  let token_post := EvPost (token_request lib auth0) in
  ∃ t0 t1 token,
    added start run.2.2 = [EvNow t0] ∨
    (added start run.2.2 = [EvNow t0; EvNow t1; token_post] ∧
     ∃ e, run.1 = inl e) ∨
    added start run.2.2 = [EvNow t0; EvNow t1; exchange_event auth0 token] ∨
    added start run.2.2 = [EvNow t0; EvNow t1; token_post;
                           exchange_event auth0 token].
Proof.
  intros run.
  apply (exchange_request_budget lib idp_up (new_provider auth0) start
           run.1 run.2.1 run.2.2).
  change (run = (run.1, (run.2.1, run.2.2))). clearbody run.
  by destruct run as [r [self' w']].
Defined.


End FurtherInstances.
